(** * Fracture Risk Calculator: the screening score engine of [app.py]

    A shallow embedding of the scoring script and of its CSV export.

    Numbers.  The script computes with Python floats, which are binary64
    numbers.  Line 56 divides and squares and then rounds to one decimal,
    so that the last binary digit of the quotient decides the decimal when
    the quotient falls next to a tie: there the operations are modelled in
    binary64, each rounded to the nearest binary64 number ([b64]).  The
    scoring block is modelled on the real numbers ([R]): its sums and
    products are exact and [np.exp] is the real exponential, which leaves
    out differences in the last binary digits of the linear predictor.
    The two calls of [round(_, 1)] are modelled exactly, as rounding half
    to even on tenths, and their result is written as the decimal it
    prints as.  [age] is a Python [int] and is kept as an integer ([Z]). *)

From Stdlib Require Import Reals Lra Lia ZArith Bool List String Ascii.
From Stdlib Require Import DecimalString.
Import ListNotations.

Local Open Scope R_scope.

(** ** Rounding *)

(** Comparison of two numbers as a boolean, as [a < b] is in Python. *)
Definition Rltb (a b : R) : bool := if Rlt_dec a b then true else false.

(** Truth value of a number: [bool(x)] is false exactly for zero. *)
Definition truthy (x : R) : bool := if Req_dec_T x 0 then false else true.

(** Nearest integer, ties to the even one ([rint]). *)
Definition rint (x : R) : Z :=
  let f := Int_part x in
  let d := x - IZR f in
  if Rlt_dec d (1 / 2) then f
  else if Rlt_dec (1 / 2) d then (f + 1)%Z
  else if Z.even f then f else (f + 1)%Z.

(** [round(x, ndigits)]: the multiple of [10 ^ -ndigits] nearest to [x]. *)
Definition round (x : R) (ndigits : nat) : R :=
  IZR (rint (x * 10 ^ ndigits)) / 10 ^ ndigits.

(** ** Binary64 arithmetic

    The binary64 number nearest to a real number, ties to the even
    significand: 53 significant binary digits at the exponent of the
    number.  The exponent is not bounded: the quotients of line 56 are far
    from the overflow and underflow of the format. *)

(** The binary exponent of a positive number: [2 ^ mag x <= x < 2 ^ (mag x + 1)]. *)
Definition mag (x : R) : Z := Int_part (ln x / ln 2).

Definition b64_pos (x : R) : R :=
  IZR (rint (x * powerRZ 2 (52 - mag x))) * powerRZ 2 (mag x - 52).

Definition b64 (x : R) : R :=
  if Rlt_dec x 0 then - b64_pos (- x) else b64_pos x.

(** [a / b] on two floats. *)
Definition truediv (a b : R) : R := b64 (a / b).

(** [a ** n] on a float, for a small whole [n]: the power, correctly
    rounded. *)
Definition float_pow (a : R) (n : nat) : R := b64 (a ^ n).

(** ** Powers of a fixed-point fraction

    [squarings k D a] squares the fraction [a / D] [k] times, rounding down
    to a multiple of [1 / D] each time: a lower bound of its [2 ^ k]-th
    power that is cheap to evaluate.  It serves to enclose the values of
    [exp] that the concrete runs need. *)
Fixpoint squarings (k : nat) (D a : Z) : Z :=
  match k with
  | O => a
  | S k' => squarings k' D (a * a / D)
  end.

(** ** The form *)

Inductive Sex : Set := Female | Male.

Definition sex_eqb (a b : Sex) : bool :=
  match a, b with
  | Female, Female | Male, Male => true
  | _, _ => false
  end.

(** The option text of the select box. *)
Definition sex_label (s : Sex) : string :=
  match s with Female => "Female" | Male => "Male" end.

(** The values of the form's widgets (lines 51-74). *)
Record PatientInput : Type := mkInput {
  age : Z;
  sex : Sex;
  weight : R;
  height_cm : R;
  femoral_neck_bmd : R;
  prior_fracture : bool;
  parent_hip : bool;
  current_smoker : bool;
  glucocorticoids : bool;
  rheumatoid : bool;
  secondary_osteoporosis : bool;
  alcohol_3_more : bool;
  fall_in_last_year : bool;
  immobility : bool
}.

(** The domains the widgets declare; the BMD box holds a value of its range
    or the value [0.0] it starts with. *)
Definition in_domain (p : PatientInput) : Prop :=
  (40 <= age p <= 100)%Z /\
  30 <= weight p <= 200 /\
  120 <= height_cm p <= 220 /\
  (femoral_neck_bmd p = 0 \/ 4 / 10 <= femoral_neck_bmd p <= 16 / 10).

(** Line 56: the body mass index shown in the form. *)
Definition bmi (p : PatientInput) : R :=
  round (truediv (weight p) (float_pow (truediv (height_cm p) 100) 2)) 1.

(** ** Weights (lines 81-94) *)

Definition AGE_WEIGHT : R := 12 / 100.
Definition SEX_MALE_WEIGHT : R := - (10 / 100).
Definition BMI_WEIGHT : R := - (5 / 100).
Definition PRIOR_FRACTURE_WEIGHT : R := 12 / 10.
Definition PARENT_HIP_WEIGHT : R := 7 / 10.
Definition SMOKER_WEIGHT : R := 6 / 10.
Definition GLUCOCORTICOSTEROID_WEIGHT : R := 9 / 10.
Definition RHEUMATOID_WEIGHT : R := 8 / 10.
Definition SECONDARY_OSTEOPOROSIS_WEIGHT : R := 9 / 10.
Definition ALCOHOL_WEIGHT : R := 5 / 10.
Definition FALL_WEIGHT : R := 8 / 10.
Definition IMMOBILITY_WEIGHT : R := 1.
Definition BMD_WEIGHT : R := - (25 / 10).
Definition BASELINE : R := - 6.

(** [int(b)] of a check box. *)
Definition int_of_bool (b : bool) : Z := if b then 1%Z else 0%Z.

(** ** The scoring block (lines 98-130) *)

(** Lines 98-111, one binding per assignment to [score].  The value of
    [bmi] is the one the form computed; it is a parameter here so that the
    block can be read with any other value in its place. *)
Definition score_before_bmd (bmi : R) (p : PatientInput) : R :=
  let score := BASELINE in
  let score := score + AGE_WEIGHT * IZR (age p - 40) in
  let score := if sex_eqb (sex p) Male then score + SEX_MALE_WEIGHT else score in
  let score := score + BMI_WEIGHT * (bmi - 25) in
  let score := score + PRIOR_FRACTURE_WEIGHT * IZR (int_of_bool (prior_fracture p)) in
  let score := score + PARENT_HIP_WEIGHT * IZR (int_of_bool (parent_hip p)) in
  let score := score + SMOKER_WEIGHT * IZR (int_of_bool (current_smoker p)) in
  let score := score + GLUCOCORTICOSTEROID_WEIGHT * IZR (int_of_bool (glucocorticoids p)) in
  let score := score + RHEUMATOID_WEIGHT * IZR (int_of_bool (rheumatoid p)) in
  let score := score + SECONDARY_OSTEOPOROSIS_WEIGHT * IZR (int_of_bool (secondary_osteoporosis p)) in
  let score := score + ALCOHOL_WEIGHT * IZR (int_of_bool (alcohol_3_more p)) in
  let score := score + FALL_WEIGHT * IZR (int_of_bool (fall_in_last_year p)) in
  let score := score + IMMOBILITY_WEIGHT * IZR (int_of_bool (immobility p)) in
  score.

(** The condition of line 112: [femoral_neck_bmd and femoral_neck_bmd > 0.0]. *)
Definition bmd_guard (femoral_neck_bmd : R) : bool :=
  truthy femoral_neck_bmd && Rltb 0 femoral_neck_bmd.

(** Lines 98-113. *)
Definition score_with (bmi : R) (p : PatientInput) : R :=
  let score := score_before_bmd bmi p in
  let score :=
    if bmd_guard (femoral_neck_bmd p)
    then score + BMD_WEIGHT * (femoral_neck_bmd p - 7 / 10)
    else score in
  score.

(** The linear predictor of a submission. *)
Definition score (p : PatientInput) : R := score_with (bmi p) p.

(** Line 116. *)
Definition prob_like (score : R) : R := 1 / (1 + exp (- score)).

(** Line 117. *)
Definition index_of_score (score : R) : R := round (prob_like score * 100) 1.

Definition screening_index (p : PatientInput) : R := index_of_score (score p).

(** Lines 123-130. *)
Definition interpretation_of (screening_index : R) : string :=
  if Rltb screening_index 10 then "Low (screening only)."
  else if Rltb screening_index 20 then
    "Mild (consider bone densitometry if other concerns)."
  else if Rltb screening_index 35 then
    "Moderate (consider referral for further assessment / DXA)."
  else "High (refer for DXA and specialist assessment).".

Definition interpretation (p : PatientInput) : string :=
  interpretation_of (screening_index p).

(** What the scoring block leaves for display: the engine's result. *)
Record ScreeningResult : Type := mkResult {
  result_bmi : R;
  result_screening_index : R;
  result_interpretation : string
}.

Definition computeScreening (p : PatientInput) : ScreeningResult :=
  {| result_bmi := bmi p;
     result_screening_index := screening_index p;
     result_interpretation := interpretation p |}.

(** ** The CSV export (lines 137-150) *)

(** [date.today()]: the one value the script reads from its environment. *)
Record date : Set := mkDate { year : nat; month : nat; day : nat }.

Fixpoint zeros (n : nat) : string :=
  match n with
  | O => EmptyString
  | S k => String "0" (zeros k)
  end.

(** [%0<width>d] of a natural number. *)
Definition zfill (width n : nat) : string :=
  let s := NilZero.string_of_uint (Nat.to_uint n) in
  (zeros (width - String.length s) ++ s)%string.

Definition isoformat (d : date) : string :=
  (zfill 4 (year d) ++ "-" ++ zfill 2 (month d) ++ "-" ++ zfill 2 (day d))%string.

(** [str] of a Python [int]. *)
Definition str_int (z : Z) : string := NilZero.string_of_int (Z.to_int z).

(** A value of a data frame column. *)
Inductive Cell : Type :=
| CStr (s : string)
| CInt (z : Z)
| CFloat (x : R).

(** A data frame built from a dict of lists: the columns in insertion
    order, each with its name. *)
Definition DataFrame : Type := list (string * list Cell).

Definition comma : ascii := ","%char.
Definition dquote : ascii := Ascii.ascii_of_nat 34.
Definition newline : ascii := Ascii.ascii_of_nat 10.
Definition creturn : ascii := Ascii.ascii_of_nat 13.

Definition special (c : ascii) : bool :=
  Ascii.eqb c comma || Ascii.eqb c dquote || Ascii.eqb c newline
  || Ascii.eqb c creturn.

Fixpoint needs_quoting (s : string) : bool :=
  match s with
  | EmptyString => false
  | String c r => special c || needs_quoting r
  end.

Fixpoint double_quotes (s : string) : string :=
  match s with
  | EmptyString => EmptyString
  | String c r =>
      if Ascii.eqb c dquote then String c (String c (double_quotes r))
      else String c (double_quotes r)
  end.

(** A text field under minimal quoting. *)
Definition csv_field (s : string) : string :=
  if needs_quoting s
  then String dquote (double_quotes s ++ String dquote EmptyString)
  else s.

Fixpoint join (sep : string) (l : list string) : string :=
  match l with
  | [] => EmptyString
  | [x] => x
  | x :: r => (x ++ sep ++ join sep r)%string
  end.

(** The download the script offers. *)
Record Download : Type := mkDownload {
  data : list Byte.byte;
  file_name : string;
  mime : string
}.

(** [s.encode('utf-8')].  Every character the script writes is ASCII, and
    UTF-8 keeps an ASCII character as the one byte of its code. *)
Definition encode_utf8 (s : string) : list Byte.byte := list_byte_of_string s.

Section CsvExport.

(** [repr] of a float, which the data frame writes for a float cell. *)
Variable repr_float : R -> string.

(** What ends a line of the file: [os.linesep], fixed by the platform. *)
Variable lineterminator : string.

Definition line (fields : list string) : string :=
  (join (String comma EmptyString) fields ++ lineterminator)%string.

Definition render (c : Cell) : string :=
  match c with
  | CStr s => csv_field s
  | CInt z => str_int z
  | CFloat x => repr_float x
  end.

(** Row [i] of the frame; [None] when a column is shorter. *)
Fixpoint row (i : nat) (df : DataFrame) : option (list string) :=
  match df with
  | [] => Some []
  | (_, cells) :: rest =>
      match nth_error cells i, row i rest with
      | Some c, Some r => Some (render c :: r)
      | _, _ => None
      end
  end.

Fixpoint rows (n : nat) (df : DataFrame) : option (list (list string)) :=
  match n with
  | O => Some []
  | S k =>
      match rows k df, row k df with
      | Some rs, Some r => Some (rs ++ [r])
      | _, _ => None
      end
  end.

Definition nrows (df : DataFrame) : nat :=
  match df with
  | [] => O
  | (_, cells) :: _ => List.length cells
  end.

(** Modelled from the spec: [DataFrame.to_csv] is code of pandas, not of
    src/.  With [index=False] the record is written as section 6 has it: a
    header row of the column names, then one row per record, the fields
    separated by commas.  As pandas does, a text field that holds a comma,
    a quote or a line break is put in quotes, a float is written as its
    [repr], and every row ends with the line terminator of the platform. *)
Definition to_csv (df : DataFrame) : option string :=
  match rows (nrows df) df with
  | Some rs =>
      Some (line (map (fun c => csv_field (fst c)) df)
            ++ String.concat EmptyString (map line rs))%string
  | None => None
  end.

(** Lines 137-147. *)
Definition user_data (today : date) (p : PatientInput) : DataFrame :=
  [ ("date"%string, [CStr (isoformat today)]);
    ("age"%string, [CInt (age p)]);
    ("sex"%string, [CStr (sex_label (sex p))]);
    ("weight_kg"%string, [CFloat (weight p)]);
    ("height_cm"%string, [CFloat (height_cm p)]);
    ("bmi"%string, [CFloat (bmi p)]);
    ("femoral_neck_bmd"%string, [CFloat (femoral_neck_bmd p)]);
    ("screening_index"%string, [CFloat (screening_index p)]);
    ("interpretation"%string, [CStr (interpretation p)]) ].

End CsvExport.

(** ** The script and what is outside it *)

(** What the script puts on the page with a value it computed; the fixed
    texts of the page are left out. *)
Inductive Output : Type :=
| Metric (bmi : R)
| Write (screening_index : R)
| Info (interpretation : string)
| DownloadButton (d : Download)
| Dataframe (df : DataFrame).

(** The calls of the script that are answered from outside: the widgets of
    the form and the clock of [date.today()].  Whatever answers them may
    keep a state of its own, of any type [World], read and changed by every
    call: the browser session, the time, a source of randomness. *)
Record Env (World : Type) : Type := mkEnv {
  number_input_int : string -> World -> Z * World;
  number_input : string -> World -> R * World;
  selectbox : string -> World -> Sex * World;
  checkbox : string -> World -> bool * World;
  form_submit_button : string -> World -> bool * World;
  today : World -> date * World
}.

Arguments number_input_int {World}.
Arguments number_input {World}.
Arguments selectbox {World}.
Arguments checkbox {World}.
Arguments form_submit_button {World}.
Arguments today {World}.

(** A step of the script: it may call the outside, whose state it passes on. *)
Definition M (World A : Type) : Type := World -> A * World.

Definition ret {World A : Type} (a : A) : M World A := fun s => (a, s).

Definition bind {World A B : Type} (m : M World A) (k : A -> M World B)
  : M World B :=
  fun s => let (a, s') := m s in k a s'.

Notation "x <- m ;; k" := (bind m (fun x => k))
  (at level 61, m at next level, right associativity).

Section Script.

Variable repr_float : R -> string.
Variable lineterminator : string.
Variable World : Type.
Variable env : Env World.

(** Lines 46-76: the widgets in the order the script asks for them. *)
Definition form : M World (PatientInput * bool) :=
  age <- number_input_int env "Age (years)" ;;
  sex <- selectbox env "Sex" ;;
  weight <- number_input env "Weight (kg)" ;;
  height_cm <- number_input env "Height (cm)" ;;
  femoral_neck_bmd <-
    number_input env "Femoral neck BMD (g/cm²) — optional" ;;
  prior_fracture <- checkbox env "Prior fragility fracture" ;;
  parent_hip <- checkbox env "Parental hip fracture" ;;
  current_smoker <- checkbox env "Current smoker" ;;
  glucocorticoids <- checkbox env "Long-term systemic glucocorticoids" ;;
  rheumatoid <- checkbox env "Rheumatoid arthritis" ;;
  secondary_osteoporosis <- checkbox env "Secondary causes of osteoporosis" ;;
  alcohol_3_more <- checkbox env "Alcohol >= 3 units/day" ;;
  fall_in_last_year <- checkbox env "One or more falls in last year" ;;
  immobility <- checkbox env "Prolonged immobility / wheelchair-bound" ;;
  submitted <- form_submit_button env "Calculate screening score" ;;
  ret (mkInput age sex weight height_cm femoral_neck_bmd prior_fracture
         parent_hip current_smoker glucocorticoids rheumatoid
         secondary_osteoporosis alcohol_3_more fall_in_last_year immobility,
       submitted).

(** The whole script: the form with its metric, then, once submitted, lines
    96-154.  When the frame cannot be written the script stops there. *)
Definition script : M World (list Output) :=
  filled <- form ;;
  let p := fst filled in
  let submitted := snd filled in
  let bmi := bmi p in
  if submitted then
    let score := score_with bmi p in
    let screening_index := index_of_score score in
    let interpretation := interpretation_of screening_index in
    d <- today env ;;
    let df := user_data d p in
    ret ([Metric bmi; Write screening_index; Info interpretation]
         ++ match to_csv repr_float lineterminator df with
            | Some csv =>
                [DownloadButton
                   {| data := encode_utf8 csv;
                      file_name := "fracture_screening_result.csv";
                      mime := "text/csv" |};
                 Dataframe df]
            | None => []
            end)
  else ret [Metric bmi].

End Script.

Arguments form {World}.
Arguments script _ _ {World}.

(** The part of the page that is the result of the engine. *)
Definition result_shown (page : list Output) : list Output :=
  filter (fun o => match o with
                   | Metric _ | Write _ | Info _ => true
                   | _ => false
                   end) page.

(** Two ways the outside may answer.  The first counts its calls and lets
    the date depend on the count; the second keeps no state.  Both fill
    the form with example 1 of the specification and submit it. *)
Definition counting : Env nat :=
  {| number_input_int := fun _ n => (65%Z, S n);
     number_input := fun label n =>
       (if String.eqb label "Weight (kg)" then 70
        else if String.eqb label "Height (cm)" then 160 else 0,
        S n);
     selectbox := fun _ n => (Female, S n);
     checkbox := fun _ n => (false, S n);
     form_submit_button := fun _ n => (true, S n);
     today := fun n => (mkDate (2000 + n) 1 1, S n) |}.

Definition still : Env unit :=
  {| number_input_int := fun _ u => (65%Z, u);
     number_input := fun label u =>
       (if String.eqb label "Weight (kg)" then 70
        else if String.eqb label "Height (cm)" then 160 else 0, u);
     selectbox := fun _ u => (Female, u);
     checkbox := fun _ u => (false, u);
     form_submit_button := fun _ u => (true, u);
     today := fun u => (mkDate 2026 11 3, u) |}.

(** ** The specification's reading of the algorithm *)

(** Section 4.1, step 3: the table of contributions, summed, for a body
    mass index already rounded to one decimal. *)
Definition spec_linear_predictor (bmi : R) (p : PatientInput) : R :=
  - 6
  + 12 / 100 * (IZR (age p) - 40)
  + (match sex p with Male => - (10 / 100) | Female => 0 end)
  + - (5 / 100) * (bmi - 25)
  + (if prior_fracture p then 12 / 10 else 0)
  + (if parent_hip p then 7 / 10 else 0)
  + (if current_smoker p then 6 / 10 else 0)
  + (if glucocorticoids p then 9 / 10 else 0)
  + (if rheumatoid p then 8 / 10 else 0)
  + (if secondary_osteoporosis p then 9 / 10 else 0)
  + (if alcohol_3_more p then 5 / 10 else 0)
  + (if fall_in_last_year p then 8 / 10 else 0)
  + (if immobility p then 1 else 0)
  + (if Rlt_dec 0 (femoral_neck_bmd p)
     then - (25 / 10) * (femoral_neck_bmd p - 7 / 10) else 0).

(** The body mass index before it is rounded: the float that line 56
    hands to [round]. *)
Definition unrounded_bmi (p : PatientInput) : R :=
  truediv (weight p) (float_pow (truediv (height_cm p) 100) 2).

(** The index the script would show had it kept the body mass index
    unrounded in the linear predictor. *)
Definition index_with_unrounded_bmi (p : PatientInput) : R :=
  index_of_score (score_with (unrounded_bmi p) p).

(** What lines 112-113 add to the linear predictor. *)
Definition bmd_term (p : PatientInput) : R :=
  score p - score_before_bmd (bmi p) p.

(** ** Changing one input of a submission *)

Definition with_age (a : Z) (p : PatientInput) : PatientInput :=
  mkInput a (sex p) (weight p) (height_cm p) (femoral_neck_bmd p)
    (prior_fracture p) (parent_hip p) (current_smoker p) (glucocorticoids p)
    (rheumatoid p) (secondary_osteoporosis p) (alcohol_3_more p)
    (fall_in_last_year p) (immobility p).

Definition with_bmd (x : R) (p : PatientInput) : PatientInput :=
  mkInput (age p) (sex p) (weight p) (height_cm p) x
    (prior_fracture p) (parent_hip p) (current_smoker p) (glucocorticoids p)
    (rheumatoid p) (secondary_osteoporosis p) (alcohol_3_more p)
    (fall_in_last_year p) (immobility p).

(** The nine check boxes. *)
Inductive Factor : Set :=
| PriorFracture | ParentHip | CurrentSmoker | Glucocorticoids | Rheumatoid
| SecondaryOsteoporosis | Alcohol3More | FallInLastYear | Immobility.

Definition factor (f : Factor) (p : PatientInput) : bool :=
  match f with
  | PriorFracture => prior_fracture p
  | ParentHip => parent_hip p
  | CurrentSmoker => current_smoker p
  | Glucocorticoids => glucocorticoids p
  | Rheumatoid => rheumatoid p
  | SecondaryOsteoporosis => secondary_osteoporosis p
  | Alcohol3More => alcohol_3_more p
  | FallInLastYear => fall_in_last_year p
  | Immobility => immobility p
  end.

Definition with_factor (f : Factor) (b : bool) (p : PatientInput)
  : PatientInput :=
  let pick g := if match f, g with
                   | PriorFracture, PriorFracture
                   | ParentHip, ParentHip
                   | CurrentSmoker, CurrentSmoker
                   | Glucocorticoids, Glucocorticoids
                   | Rheumatoid, Rheumatoid
                   | SecondaryOsteoporosis, SecondaryOsteoporosis
                   | Alcohol3More, Alcohol3More
                   | FallInLastYear, FallInLastYear
                   | Immobility, Immobility => true
                   | _, _ => false
                   end then b else factor g p in
  mkInput (age p) (sex p) (weight p) (height_cm p) (femoral_neck_bmd p)
    (pick PriorFracture) (pick ParentHip) (pick CurrentSmoker)
    (pick Glucocorticoids) (pick Rheumatoid) (pick SecondaryOsteoporosis)
    (pick Alcohol3More) (pick FallInLastYear) (pick Immobility).

(** ** Submissions used below *)

(** Section 8, end-to-end example 1. *)
Definition example_1 : PatientInput :=
  mkInput 65 Female 70 160 0
    false false false false false false false false false.

(** Section 8, end-to-end example 2. *)
Definition example_2 : PatientInput :=
  mkInput 65 Female 70 160 0
    true true false false false false false false false.

(** Example 1 with a prior fracture alone. *)
Definition example_mild : PatientInput :=
  mkInput 65 Female 70 160 0
    true false false false false false false false false.

(** A body mass index of 24.953125, shown as 25.0. *)
Definition crafted : PatientInput :=
  mkInput 90 Female (1597 / 16) 200 0
    false false false false false false false false false.


(** 73.6 kg at 160 cm, where 73.6 is the float of that literal: the
    quotient of line 56 is the float just below 28.75. *)
Definition below_a_tie : PatientInput :=
  mkInput 80 Female (b64 (736 / 10)) 160 0
    false false false false false false false false false.

(** 36.2 kg at 200 cm, where 36.2 is the float of that literal: the
    quotient of line 56 is the float just above 9.05. *)
Definition above_a_tie : PatientInput :=
  mkInput 80 Female (b64 (362 / 10)) 200 0
    false false false false false false false false false.

(** Every box ticked, at the age of 99. *)
Definition saturated : PatientInput :=
  mkInput 99 Female 100 200 0
    true true true true true true true true true.

Definition with_weight (w : R) (p : PatientInput) : PatientInput :=
  mkInput (age p) (sex p) w (height_cm p) (femoral_neck_bmd p)
    (prior_fracture p) (parent_hip p) (current_smoker p) (glucocorticoids p)
    (rheumatoid p) (secondary_osteoporosis p) (alcohol_3_more p)
    (fall_in_last_year p) (immobility p).

Definition with_height (h : R) (p : PatientInput) : PatientInput :=
  mkInput (age p) (sex p) (weight p) h (femoral_neck_bmd p)
    (prior_fracture p) (parent_hip p) (current_smoker p) (glucocorticoids p)
    (rheumatoid p) (secondary_osteoporosis p) (alcohol_3_more p)
    (fall_in_last_year p) (immobility p).

(** The two corners of the form's domains: every input at the end that
    lowers the predictor, and every input at the end that raises it. *)
Definition lowest : PatientInput :=
  mkInput 40 Male 200 120 (16 / 10)
    false false false false false false false false false.

Definition highest : PatientInput :=
  mkInput 100 Female 30 220 (4 / 10)
    true true true true true true true true true.

(** * Properties *)

(** ** Rounding *)

Lemma Rltb_lt (a b : R) : Rltb a b = true <-> a < b.
Proof.
  unfold Rltb. destruct (Rlt_dec a b); split; intros; try easy; contradiction.
Qed.

Lemma truthy_neq (x : R) : truthy x = true <-> x <> 0.
Proof.
  unfold truthy. destruct (Req_dec_T x 0); split; intros; try easy.
Qed.

Lemma Int_part_bounds (x : R) : IZR (Int_part x) <= x < IZR (Int_part x) + 1.
Proof. destruct (base_Int_part x). lra. Qed.

(** The rounded value is within a half of the number. *)
Lemma rint_near (x : R) : IZR (rint x) - 1 / 2 <= x <= IZR (rint x) + 1 / 2.
Proof.
  unfold rint. pose proof (Int_part_bounds x) as [Il Iu].
  destruct (Rlt_dec _ _) as [H1 | H1].
  - lra.
  - destruct (Rlt_dec _ _) as [H2 | H2].
    + rewrite plus_IZR. lra.
    + destruct (Z.even _); [| rewrite plus_IZR]; lra.
Qed.

(** A number strictly within a half of an integer rounds to it. *)
Lemma rint_unique (x : R) (n : Z) :
  IZR n - 1 / 2 < x < IZR n + 1 / 2 -> rint x = n.
Proof.
  intros [Hl Hu]. pose proof (rint_near x) as [Nl Nu].
  assert (H1 : (rint x < n + 1)%Z) by (apply lt_IZR; rewrite plus_IZR; lra).
  assert (H2 : (n < rint x + 1)%Z) by (apply lt_IZR; rewrite plus_IZR; lra).
  lia.
Qed.

Lemma rint_IZR (n : Z) : rint (IZR n) = n.
Proof. apply rint_unique. lra. Qed.

(** Rounding keeps the order. *)
Lemma rint_mono (x y : R) : x <= y -> (rint x <= rint y)%Z.
Proof.
  intros Hxy.
  pose proof (rint_near x) as [_ Xu]. pose proof (rint_near y) as [Yl _].
  assert (H1 : (rint x < rint y + 2)%Z).
  { apply lt_IZR. rewrite plus_IZR.
    pose proof (rint_near x). pose proof (rint_near y). lra. }
  destruct (Z.eq_dec (rint x) (rint y + 1)) as [E | NE]; [| lia].
  exfalso.
  assert (Ex : IZR (rint x) = IZR (rint y) + 1) by (rewrite E, plus_IZR; reflexivity).
  pose proof (rint_near x) as [Xl _]. pose proof (rint_near y) as [_ Yu].
  assert (x = y) by lra. subst y. lia.
Qed.

Lemma rint_between (x : R) (a b : Z) :
  IZR a <= x <= IZR b -> (a <= rint x <= b)%Z.
Proof.
  intros [Ha Hb]. split.
  - rewrite <- (rint_IZR a). now apply rint_mono.
  - rewrite <- (rint_IZR b). now apply rint_mono.
Qed.

(** [round(x, 1)], read off an enclosure of [x]. *)
Lemma round1_unique (x : R) (n : Z) :
  (IZR n - 1 / 2) / 10 < x < (IZR n + 1 / 2) / 10 -> round x 1 = IZR n / 10.
Proof.
  intros H. unfold round. rewrite (rint_unique (x * 10 ^ 1) n); simpl; lra.
Qed.

Lemma round1_mono (x y : R) : x <= y -> round x 1 <= round y 1.
Proof.
  intros H. unfold round. simpl.
  assert (Hz : (rint (x * (10 * 1)) <= rint (y * (10 * 1)))%Z)
    by (apply rint_mono; lra).
  apply IZR_le in Hz. lra.
Qed.

(** A tie goes to the even integer. *)
Lemma rint_tie (x : R) :
  Rabs (IZR (rint x) - x) = 1 / 2 -> Z.even (rint x) = true.
Proof.
  unfold rint. pose proof (Int_part_bounds x) as [Il Iu].
  set (f := Int_part x) in *.
  destruct (Rlt_dec _ _) as [H1 | H1].
  - intros H. exfalso. rewrite Rabs_left1 in H by lra. lra.
  - destruct (Rlt_dec _ _) as [H2 | H2].
    + intros H. exfalso. rewrite plus_IZR, Rabs_pos_eq in H by (rewrite ?plus_IZR; lra). lra.
    + intros _. destruct (Z.even f) eqn:E; [exact E |].
      rewrite Z.even_add, E. reflexivity.
Qed.

(** [round(x, 1)] is the whole number of tenths nearest to [x], the even
    one of the two at a tie. *)
Lemma round1_spec (x : R) :
  exists m : Z,
    round x 1 = IZR m / 10 /\
    Rabs (IZR m / 10 - x) <= 5 / 100 /\
    (Rabs (IZR m / 10 - x) = 5 / 100 -> Z.even m = true).
Proof.
  exists (rint (x * 10 ^ 1)). unfold round.
  pose proof (rint_near (x * 10 ^ 1)) as [Hl Hu].
  pose proof (rint_tie (x * 10 ^ 1)) as Ht.
  set (m := rint (x * 10 ^ 1)) in *. simpl pow in *.
  split; [f_equal; ring |]. split.
  - apply Rabs_le. lra.
  - intros H. apply Ht.
    replace (IZR m - x * (10 * 1)) with ((IZR m / 10 - x) * 10) by field.
    rewrite Rabs_mult, H, (Rabs_pos_eq 10) by lra. lra.
Qed.

(** ** Binary64 arithmetic *)

Lemma ln2_pos : 0 < ln 2.
Proof. pose proof ln_lt_2. lra. Qed.

Lemma pow2_exp (e : Z) : powerRZ 2 e = exp (IZR e * ln 2).
Proof. rewrite powerRZ_Rpower by lra. reflexivity. Qed.

Lemma pow2_pos (e : Z) : 0 < powerRZ 2 e.
Proof. apply powerRZ_lt. lra. Qed.

Lemma pow2_add (a b : Z) : powerRZ 2 (a + b) = powerRZ 2 a * powerRZ 2 b.
Proof. apply powerRZ_add. lra. Qed.

Lemma pow2_lt (a b : Z) : (a < b)%Z -> powerRZ 2 a < powerRZ 2 b.
Proof.
  intros H. rewrite !pow2_exp. apply exp_increasing.
  apply Rmult_lt_compat_r; [exact ln2_pos | now apply IZR_lt].
Qed.

Lemma pow2_le (a b : Z) : (a <= b)%Z -> powerRZ 2 a <= powerRZ 2 b.
Proof.
  intros H. destruct (Z.eq_dec a b) as [-> | N]; [lra |].
  left. apply pow2_lt. lia.
Qed.

Lemma mag_bounds (x : R) :
  0 < x -> powerRZ 2 (mag x) <= x < powerRZ 2 (mag x + 1).
Proof.
  intros Hx. unfold mag. pose proof ln2_pos as L2.
  pose proof (Int_part_bounds (ln x / ln 2)) as [Hl Hu].
  set (e := Int_part (ln x / ln 2)) in *.
  assert (Ex : x = exp (ln x / ln 2 * ln 2)).
  { replace (ln x / ln 2 * ln 2) with (ln x) by (field; lra).
    symmetry. now apply exp_ln. }
  rewrite !pow2_exp, plus_IZR. split.
  - apply Rle_trans with (exp (ln x / ln 2 * ln 2)); [| rewrite <- Ex; lra].
    destruct Hl as [Hl | Hl].
    + left. apply exp_increasing. now apply Rmult_lt_compat_r.
    + rewrite Hl. lra.
  - apply Rle_lt_trans with (exp (ln x / ln 2 * ln 2)); [rewrite <- Ex; lra |].
    apply exp_increasing. now apply Rmult_lt_compat_r.
Qed.

Lemma mag_unique (x : R) (e : Z) :
  powerRZ 2 e <= x < powerRZ 2 (e + 1) -> mag x = e.
Proof.
  intros [Hl Hu].
  assert (Hx : 0 < x) by (pose proof (pow2_pos e); lra).
  pose proof (mag_bounds x Hx) as [Ml Mu].
  destruct (Z_lt_le_dec (mag x) e) as [A | A].
  - exfalso. pose proof (pow2_le (mag x + 1) e ltac:(lia)). lra.
  - destruct (Z_lt_le_dec e (mag x)) as [B | B]; [| lia].
    exfalso. pose proof (pow2_le (e + 1) (mag x) ltac:(lia)). lra.
Qed.

Lemma scale_back (x : R) (e : Z) :
  x * powerRZ 2 (52 - e) * powerRZ 2 (e - 52) = x.
Proof.
  rewrite Rmult_assoc, <- pow2_add.
  replace (52 - e + (e - 52))%Z with 0%Z by lia. simpl. ring.
Qed.

Lemma b64_pos_0 : b64_pos 0 = 0.
Proof. unfold b64_pos. rewrite Rmult_0_l, rint_IZR. ring. Qed.

Lemma b64_pos_near (x : R) :
  0 < x -> Rabs (b64_pos x - x) <= x * powerRZ 2 (- 53).
Proof.
  intros Hx. pose proof (mag_bounds x Hx) as [Ml _].
  unfold b64_pos. set (e := mag x) in *.
  set (t := x * powerRZ 2 (52 - e)).
  pose proof (rint_near t) as [Tl Tu].
  pose proof (pow2_pos (e - 52)) as Hp.
  assert (Ex : x = t * powerRZ 2 (e - 52)) by (unfold t; now rewrite scale_back).
  assert (Hh : powerRZ 2 (e - 52) * (1 / 2) = powerRZ 2 e * powerRZ 2 (- 53)).
  { replace (e - 52)%Z with (e + - 53 + 1)%Z by lia.
    rewrite !pow2_add. simpl (powerRZ 2 1). field. }
  assert (Hb : Rabs (IZR (rint t) * powerRZ 2 (e - 52) - x)
               <= powerRZ 2 (e - 52) * (1 / 2)).
  { rewrite Ex at 1.
    replace (IZR (rint t) * powerRZ 2 (e - 52) - t * powerRZ 2 (e - 52))
      with ((IZR (rint t) - t) * powerRZ 2 (e - 52)) by ring.
    rewrite Rabs_mult, (Rabs_pos_eq (powerRZ 2 (e - 52))) by lra.
    rewrite Rmult_comm. apply Rmult_le_compat_l; [lra |].
    apply Rabs_le. lra. }
  rewrite Hh in Hb. apply Rle_trans with (1 := Hb).
  apply Rmult_le_compat_r; [left; apply pow2_pos | exact Ml].
Qed.

Lemma IZR_pow2 (k : nat) : IZR (2 ^ Z.of_nat k) = powerRZ 2 (Z.of_nat k).
Proof. rewrite <- pow_IZR. apply pow_powerRZ. Qed.

Lemma b64_pos_bounds (x : R) :
  0 < x -> powerRZ 2 (mag x) <= b64_pos x <= powerRZ 2 (mag x + 1).
Proof.
  intros Hx. pose proof (mag_bounds x Hx) as [Ml Mu].
  unfold b64_pos. set (e := mag x) in *.
  set (t := x * powerRZ 2 (52 - e)).
  pose proof (pow2_pos (52 - e)) as Hs. pose proof (pow2_pos (e - 52)) as Hp.
  assert (T1 : powerRZ 2 52 <= t).
  { replace 52%Z with (e + (52 - e))%Z at 1 by lia. rewrite pow2_add.
    unfold t. apply Rmult_le_compat_r; lra. }
  assert (T2 : t <= powerRZ 2 53).
  { replace 53%Z with (e + 1 + (52 - e))%Z by lia. rewrite pow2_add.
    unfold t. apply Rmult_le_compat_r; lra. }
  change 52%Z with (Z.of_nat 52) in T1. change 53%Z with (Z.of_nat 53) in T2.
  rewrite <- IZR_pow2 in T1, T2.
  apply rint_mono in T1, T2. rewrite rint_IZR in T1, T2.
  apply IZR_le in T1, T2. rewrite IZR_pow2 in T1, T2.
  split.
  - replace e with (52 + (e - 52))%Z at 1 by lia. rewrite pow2_add.
    apply Rmult_le_compat_r; [lra | exact T1].
  - replace (e + 1)%Z with (53 + (e - 52))%Z by lia. rewrite pow2_add.
    apply Rmult_le_compat_r; [lra | exact T2].
Qed.

Lemma b64_pos_mono (x y : R) : 0 < x <= y -> b64_pos x <= b64_pos y.
Proof.
  intros [Hx Hxy]. assert (Hy : 0 < y) by lra.
  pose proof (mag_bounds x Hx) as [Xl Xu].
  pose proof (mag_bounds y Hy) as [Yl Yu].
  destruct (Z_lt_le_dec (mag y) (mag x)) as [A | A].
  - exfalso. pose proof (pow2_le (mag y + 1) (mag x) ltac:(lia)). lra.
  - destruct (Z.eq_dec (mag x) (mag y)) as [E | N].
    + unfold b64_pos. rewrite E.
      apply Rmult_le_compat_r; [left; apply pow2_pos |].
      apply IZR_le, rint_mono.
      apply Rmult_le_compat_r; [left; apply pow2_pos | exact Hxy].
    + pose proof (b64_pos_bounds x Hx) as [_ Bx].
      pose proof (b64_pos_bounds y Hy) as [By _].
      pose proof (pow2_le (mag x + 1) (mag y) ltac:(lia)). lra.
Qed.

Lemma b64_nonneg (x : R) : 0 <= x -> 0 <= b64 x.
Proof.
  intros Hx. unfold b64. destruct (Rlt_dec x 0); [lra |].
  destruct Hx as [Hx | <-].
  - pose proof (b64_pos_bounds x Hx) as [B _]. pose proof (pow2_pos (mag x)). lra.
  - rewrite b64_pos_0. lra.
Qed.

Lemma b64_pos_lt (x : R) : 0 < x -> 0 < b64 x.
Proof.
  intros Hx. unfold b64. destruct (Rlt_dec x 0); [lra |].
  pose proof (b64_pos_bounds x Hx) as [B _]. pose proof (pow2_pos (mag x)). lra.
Qed.

Lemma b64_mono (x y : R) : x <= y -> b64 x <= b64 y.
Proof.
  intros H. unfold b64.
  destruct (Rlt_dec x 0) as [X | X]; destruct (Rlt_dec y 0) as [Y | Y].
  - assert (b64_pos (- y) <= b64_pos (- x)) by (apply b64_pos_mono; lra). lra.
  - pose proof (b64_pos_lt (- x) ltac:(lra)) as A. unfold b64 in A.
    destruct (Rlt_dec (- x) 0); [lra |].
    pose proof (b64_nonneg y ltac:(lra)) as B. unfold b64 in B.
    destruct (Rlt_dec y 0); lra.
  - lra.
  - destruct (Req_dec x 0) as [-> | N].
    + rewrite b64_pos_0. pose proof (b64_nonneg y ltac:(lra)) as B.
      unfold b64 in B. destruct (Rlt_dec y 0); lra.
    + apply b64_pos_mono. lra.
Qed.

Lemma two_m53 : powerRZ 2 (- 53) <= 1 / 10 ^ 15.
Proof.
  change (powerRZ 2 (- 53)) with (/ 2 ^ 53).
  apply Rmult_le_reg_r with (2 ^ 53 * 10 ^ 15); [lra |].
  field_simplify; lra.
Qed.

Lemma b64_rel (x : R) :
  0 <= x -> x * (1 - 1 / 10 ^ 15) <= b64 x <= x * (1 + 1 / 10 ^ 15).
Proof.
  intros [Hx | <-].
  - unfold b64. destruct (Rlt_dec x 0); [lra |].
    pose proof (b64_pos_near x Hx) as H. pose proof two_m53 as E.
    assert (H' : Rabs (b64_pos x - x) <= x * (1 / 10 ^ 15)).
    { apply Rle_trans with (1 := H). apply Rmult_le_compat_l; lra. }
    unfold Rabs in H'. destruct (Rcase_abs _); lra.
  - unfold b64. destruct (Rlt_dec 0 0); [lra |]. rewrite b64_pos_0. lra.
Qed.

Lemma b64_eval (x : R) (e n : Z) :
  powerRZ 2 e <= x < powerRZ 2 (e + 1) ->
  IZR n - 1 / 2 < x * powerRZ 2 (52 - e) < IZR n + 1 / 2 ->
  b64 x = IZR n * powerRZ 2 (e - 52).
Proof.
  intros Hb Hn.
  assert (Hx : 0 < x) by (pose proof (pow2_pos e); lra).
  unfold b64. destruct (Rlt_dec x 0); [lra |].
  unfold b64_pos. rewrite (mag_unique x e Hb).
  now rewrite (rint_unique _ n Hn).
Qed.

(** ** The quotient of line 56 *)

(** The float quotient is the exact one up to a few units in the last
    place. *)
Lemma unrounded_bmi_enclosed (p : PatientInput) :
  0 < height_cm p -> 0 <= weight p ->
  weight p / (height_cm p / 100) ^ 2 * (1 - 1 / 10 ^ 14)
  <= unrounded_bmi p
  <= weight p / (height_cm p / 100) ^ 2 * (1 + 1 / 10 ^ 14).
Proof.
  intros Hh Hw. unfold unrounded_bmi, truediv, float_pow.
  set (r := height_cm p / 100). assert (Hr : 0 < r) by (unfold r; lra).
  set (w := weight p) in *.
  pose proof (b64_rel r ltac:(lra)) as [A1 A2]. set (a := b64 r) in *.
  assert (Ha : 0 < a) by (apply b64_pos_lt; exact Hr).
  assert (Hr2 : 0 < r ^ 2) by (apply pow_lt; exact Hr).
  assert (S1 : r ^ 2 * (1 - 1 / 10 ^ 15) ^ 2 <= a ^ 2).
  { rewrite <- Rpow_mult_distr. apply pow_incr. split; [| exact A1].
    apply Rmult_le_pos; lra. }
  assert (S2 : a ^ 2 <= r ^ 2 * (1 + 1 / 10 ^ 15) ^ 2).
  { rewrite <- Rpow_mult_distr. apply pow_incr. lra. }
  assert (Ha2 : 0 < a ^ 2) by (apply pow_lt; exact Ha).
  pose proof (b64_rel (a ^ 2) ltac:(lra)) as [D1 D2]. set (d := b64 (a ^ 2)) in *.
  assert (E1 : r ^ 2 * (1 - 1 / 10 ^ 15) ^ 3 <= d).
  { apply Rle_trans with (a ^ 2 * (1 - 1 / 10 ^ 15)); [| exact D1].
    replace (r ^ 2 * (1 - 1 / 10 ^ 15) ^ 3)
      with (r ^ 2 * (1 - 1 / 10 ^ 15) ^ 2 * (1 - 1 / 10 ^ 15)) by ring.
    apply Rmult_le_compat_r; lra. }
  assert (E2 : d <= r ^ 2 * (1 + 1 / 10 ^ 15) ^ 3).
  { apply Rle_trans with (a ^ 2 * (1 + 1 / 10 ^ 15)); [exact D2 |].
    replace (r ^ 2 * (1 + 1 / 10 ^ 15) ^ 3)
      with (r ^ 2 * (1 + 1 / 10 ^ 15) ^ 2 * (1 + 1 / 10 ^ 15)) by ring.
    apply Rmult_le_compat_r; lra. }
  assert (K1 : 0 < (1 - 1 / 10 ^ 15) ^ 3) by lra.
  assert (K2 : 0 < (1 + 1 / 10 ^ 15) ^ 3) by lra.
  assert (L1 : 0 < r ^ 2 * (1 - 1 / 10 ^ 15) ^ 3) by now apply Rmult_lt_0_compat.
  assert (Hd : 0 < d) by lra.
  assert (Q1 : w / r ^ 2 * / (1 + 1 / 10 ^ 15) ^ 3 <= w / d).
  { replace (w / r ^ 2 * / (1 + 1 / 10 ^ 15) ^ 3)
      with (w * / (r ^ 2 * (1 + 1 / 10 ^ 15) ^ 3)) by (field; lra).
    apply Rmult_le_compat_l; [exact Hw |].
    apply Rinv_le_contravar; lra. }
  assert (Q2 : w / d <= w / r ^ 2 * / (1 - 1 / 10 ^ 15) ^ 3).
  { replace (w / r ^ 2 * / (1 - 1 / 10 ^ 15) ^ 3)
      with (w * / (r ^ 2 * (1 - 1 / 10 ^ 15) ^ 3)) by (field; lra).
    apply Rmult_le_compat_l; [exact Hw |].
    apply Rinv_le_contravar; lra. }
  assert (Hex : 0 <= w / r ^ 2).
  { apply Rmult_le_pos; [exact Hw |]. left. now apply Rinv_0_lt_compat. }
  assert (Hq : 0 <= w / d).
  { apply Rmult_le_pos; [exact Hw |]. left. now apply Rinv_0_lt_compat. }
  pose proof (b64_rel (w / d) Hq) as [U1 U2].
  set (ex := w / r ^ 2) in *. set (q := w / d) in *.
  split.
  - apply Rle_trans with (q * (1 - 1 / 10 ^ 15)); [| exact U1].
    apply Rle_trans with (ex * / (1 + 1 / 10 ^ 15) ^ 3 * (1 - 1 / 10 ^ 15)).
    + rewrite Rmult_assoc. apply Rmult_le_compat_l; [exact Hex |].
      apply Rmult_le_reg_r with ((1 + 1 / 10 ^ 15) ^ 3); [exact K2 |].
      field_simplify; lra.
    + apply Rmult_le_compat_r; lra.
  - apply Rle_trans with (q * (1 + 1 / 10 ^ 15)); [exact U2 |].
    apply Rle_trans with (ex * / (1 - 1 / 10 ^ 15) ^ 3 * (1 + 1 / 10 ^ 15)).
    + apply Rmult_le_compat_r; lra.
    + rewrite Rmult_assoc. apply Rmult_le_compat_l; [exact Hex |].
      apply Rmult_le_reg_r with ((1 - 1 / 10 ^ 15) ^ 3); [exact K1 |].
      field_simplify; lra.
Qed.

(** The body mass index of a submission whose exact quotient is not next
    to a tie. *)
Lemma bmi_of_exact (p : PatientInput) (n : Z) :
  0 < height_cm p -> 0 <= weight p ->
  weight p / (height_cm p / 100) ^ 2 <= 1000 ->
  (IZR n - 49 / 100) / 10 <= weight p / (height_cm p / 100) ^ 2
                          <= (IZR n + 49 / 100) / 10 ->
  bmi p = IZR n / 10.
Proof.
  intros Hh Hw Hb [Hl Hu].
  pose proof (unrounded_bmi_enclosed p Hh Hw) as [El Eu].
  assert (H0 : 0 <= weight p / (height_cm p / 100) ^ 2).
  { apply Rmult_le_pos; [exact Hw |].
    left. apply Rinv_0_lt_compat, pow_lt. lra. }
  unfold bmi. fold (unrounded_bmi p). apply round1_unique.
  set (ex := weight p / (height_cm p / 100) ^ 2) in *. lra.
Qed.

(** ** Enclosures of the exponential

    [exp x] is enclosed between rationals through [1 + y <= exp y], used
    at [y = x / 2 ^ k] from below and at [y = - x / 2 ^ k] from above. *)

Lemma exp_mult_nat (n : nat) (y : R) : exp (INR n * y) = exp y ^ n.
Proof.
  induction n as [| n IH].
  - simpl. rewrite Rmult_0_l. apply exp_0.
  - rewrite S_INR, Rmult_plus_distr_r, Rmult_1_l, exp_plus, IH. simpl. ring.
Qed.

Lemma exp_two_pow (k : nat) (x : R) : exp x = exp (x / 2 ^ k) ^ (2 ^ k).
Proof.
  rewrite <- exp_mult_nat, pow_INR.
  replace (INR 2) with 2 by (simpl; lra).
  f_equal. field. apply pow_nonzero. lra.
Qed.

Lemma squarings_nonneg (k : nat) (D a : Z) :
  (0 < D)%Z -> (0 <= a)%Z -> (0 <= squarings k D a)%Z.
Proof.
  intros HD. revert a. induction k as [| k IH]; intros a Ha; simpl.
  - exact Ha.
  - apply IH. apply Z.div_pos; [nia | exact HD].
Qed.

Lemma squarings_le (k : nat) (D a : Z) :
  (0 < D)%Z -> (0 <= a)%Z ->
  IZR (squarings k D a) / IZR D <= (IZR a / IZR D) ^ (2 ^ k).
Proof.
  intros HD. assert (HD' : 0 < IZR D) by now apply IZR_lt.
  revert a. induction k as [| k IH]; intros a Ha.
  - simpl. lra.
  - assert (Hq : (0 <= a * a / D)%Z) by (apply Z.div_pos; [nia | exact HD]).
    assert (Hm : (D * (a * a / D) <= a * a)%Z) by (apply Z.mul_div_le; exact HD).
    apply IZR_le in Hm. rewrite !mult_IZR in Hm.
    apply IZR_le in Hq.
    assert (H1 : IZR (a * a / D) / IZR D <= (IZR a / IZR D) ^ 2).
    { apply Rmult_le_reg_r with (IZR D * IZR D).
      - now apply Rmult_lt_0_compat.
      - replace (IZR (a * a / D) / IZR D * (IZR D * IZR D))
          with (IZR D * IZR (a * a / D)) by (field; lra).
        replace ((IZR a / IZR D) ^ 2 * (IZR D * IZR D))
          with (IZR a * IZR a) by (field; lra).
        exact Hm. }
    assert (H0 : 0 <= IZR (a * a / D) / IZR D).
    { apply Rmult_le_pos; [exact Hq |]. left. now apply Rinv_0_lt_compat. }
    simpl squarings.
    apply Rle_trans with ((IZR (a * a / D) / IZR D) ^ (2 ^ k)).
    + apply IH. now apply le_IZR.
    + replace (2 ^ S k)%nat with (2 * 2 ^ k)%nat by reflexivity.
      rewrite pow_mult. apply pow_incr. split; [exact H0 | exact H1].
Qed.

Lemma exp_above (k : nat) (x : R) (D a c d : Z) :
  (0 < D)%Z -> (0 <= a)%Z -> (0 < d)%Z ->
  IZR a / IZR D <= 1 + x / 2 ^ k ->
  (c * D < squarings k D a * d)%Z ->
  IZR c / IZR d < exp x.
Proof.
  intros HD Ha Hd Hq Hz.
  assert (HD' : 0 < IZR D) by now apply IZR_lt.
  assert (Hd' : 0 < IZR d) by now apply IZR_lt.
  assert (Hab : 0 <= IZR a / IZR D).
  { apply Rmult_le_pos; [now apply IZR_le |]. left. now apply Rinv_0_lt_compat. }
  apply Rlt_le_trans with (IZR (squarings k D a) / IZR D).
  - apply IZR_lt in Hz. rewrite !mult_IZR in Hz.
    apply Rmult_lt_reg_r with (IZR d * IZR D).
    + now apply Rmult_lt_0_compat.
    + replace (IZR c / IZR d * (IZR d * IZR D)) with (IZR c * IZR D)
        by (field; lra).
      replace (IZR (squarings k D a) / IZR D * (IZR d * IZR D))
        with (IZR (squarings k D a) * IZR d) by (field; lra).
      exact Hz.
  - apply Rle_trans with ((IZR a / IZR D) ^ (2 ^ k)).
    + now apply squarings_le.
    + rewrite (exp_two_pow k x). apply pow_incr. split; [exact Hab |].
      pose proof (exp_ineq1_le (x / 2 ^ k)). lra.
Qed.

Lemma exp_below (k : nat) (x : R) (D a c d : Z) :
  (0 < D)%Z -> (0 <= a)%Z -> (0 < d)%Z ->
  IZR a / IZR D <= 1 - x / 2 ^ k ->
  (D * d < c * squarings k D a)%Z ->
  exp x < IZR c / IZR d.
Proof.
  intros HD Ha Hd Hq Hz.
  assert (HD' : 0 < IZR D) by now apply IZR_lt.
  assert (Hd' : 0 < IZR d) by now apply IZR_lt.
  assert (Hab : 0 <= IZR a / IZR D).
  { apply Rmult_le_pos; [now apply IZR_le |]. left. now apply Rinv_0_lt_compat. }
  pose proof (squarings_nonneg k D a HD Ha) as Hs.
  assert (HDd : (0 < D * d)%Z) by (apply Z.mul_pos_pos; lia).
  assert (Hs' : (0 < squarings k D a)%Z).
  { destruct (Z.eq_dec (squarings k D a) 0) as [E | NE]; [| lia].
    rewrite E, Z.mul_0_r in Hz. lia. }
  assert (Hc : (0 < c)%Z).
  { destruct (Z_lt_le_dec 0 c) as [Hc | Hc]; [exact Hc |].
    assert (c * squarings k D a <= 0)%Z by (apply Z.mul_nonpos_nonneg; lia).
    lia. }
  apply IZR_lt in Hs', Hc.
  assert (Hlow : IZR (squarings k D a) / IZR D <= exp (- x)).
  { apply Rle_trans with ((IZR a / IZR D) ^ (2 ^ k)).
    - now apply squarings_le.
    - rewrite (exp_two_pow k (- x)). apply pow_incr. split; [exact Hab |].
      pose proof (exp_ineq1_le (- x / 2 ^ k)). lra. }
  assert (He : exp x * exp (- x) = 1)
    by (rewrite <- exp_plus, Rplus_opp_r; apply exp_0).
  pose proof (exp_pos x) as Hp.
  apply IZR_lt in Hz. rewrite !mult_IZR in Hz.
  assert (H1 : IZR (squarings k D a) <= exp (- x) * IZR D).
  { apply Rmult_le_reg_r with (/ IZR D).
    - now apply Rinv_0_lt_compat.
    - rewrite Rmult_assoc, Rinv_r by lra. unfold Rdiv in Hlow. lra. }
  assert (H2 : exp x * IZR (squarings k D a) <= IZR D).
  { apply Rle_trans with (exp x * (exp (- x) * IZR D)).
    - apply Rmult_le_compat_l; lra.
    - rewrite <- Rmult_assoc, He. lra. }
  apply Rmult_lt_reg_r with (IZR d * IZR (squarings k D a)).
  - now apply Rmult_lt_0_compat.
  - replace (IZR c / IZR d * (IZR d * IZR (squarings k D a)))
      with (IZR c * IZR (squarings k D a)) by (field; lra).
    apply Rle_lt_trans with (IZR D * IZR d); [| exact Hz].
    replace (exp x * (IZR d * IZR (squarings k D a)))
      with (exp x * IZR (squarings k D a) * IZR d) by ring.
    apply Rmult_le_compat_r; lra.
Qed.

(** ** The linear predictor *)

Lemma weight_flag (w : R) (b : bool) :
  w * IZR (int_of_bool b) = if b then w else 0.
Proof. destruct b; simpl; ring. Qed.

Lemma bmd_guard_iff (x : R) : bmd_guard x = true <-> 0 < x.
Proof.
  unfold bmd_guard. rewrite andb_true_iff, truthy_neq, Rltb_lt. lra.
Qed.

Lemma bmd_guard_dec (x : R) :
  bmd_guard x = if Rlt_dec 0 x then true else false.
Proof.
  destruct (Rlt_dec 0 x) as [H | H].
  - now apply bmd_guard_iff.
  - apply not_true_is_false. now rewrite bmd_guard_iff.
Qed.

(** The block before the BMD lines, as a sum. *)
Lemma score_before_bmd_sum (b : R) (p : PatientInput) :
  score_before_bmd b p =
    BASELINE + AGE_WEIGHT * (IZR (age p) - 40)
    + (if sex_eqb (sex p) Male then SEX_MALE_WEIGHT else 0)
    + BMI_WEIGHT * (b - 25)
    + (if prior_fracture p then PRIOR_FRACTURE_WEIGHT else 0)
    + (if parent_hip p then PARENT_HIP_WEIGHT else 0)
    + (if current_smoker p then SMOKER_WEIGHT else 0)
    + (if glucocorticoids p then GLUCOCORTICOSTEROID_WEIGHT else 0)
    + (if rheumatoid p then RHEUMATOID_WEIGHT else 0)
    + (if secondary_osteoporosis p then SECONDARY_OSTEOPOROSIS_WEIGHT else 0)
    + (if alcohol_3_more p then ALCOHOL_WEIGHT else 0)
    + (if fall_in_last_year p then FALL_WEIGHT else 0)
    + (if immobility p then IMMOBILITY_WEIGHT else 0).
Proof.
  unfold score_before_bmd. cbv zeta.
  rewrite !weight_flag, minus_IZR.
  destruct (sex_eqb (sex p) Male); ring.
Qed.

Lemma score_with_sum (b : R) (p : PatientInput) :
  score_with b p =
    score_before_bmd b p
    + (if Rlt_dec 0 (femoral_neck_bmd p)
       then BMD_WEIGHT * (femoral_neck_bmd p - 7 / 10) else 0).
Proof.
  unfold score_with. cbv zeta. rewrite bmd_guard_dec.
  destruct (Rlt_dec 0 (femoral_neck_bmd p)); ring.
Qed.

(** C1.  The linear predictor the script accumulates is the sum the
    specification tabulates: the baseline -6.0, 0.12 for each year of age
    over 40, -0.10 for a male patient, -0.05 for each unit of the rounded
    body mass index over 25, the weight of every ticked risk factor, and
    -2.5 for each unit of femoral neck BMD over 0.7 when that BMD is
    positive.  The body mass index in it is the whole number of tenths
    nearest to the quotient of line 56, and the screening index is the
    whole number of tenths nearest to 100 times the logistic transform of
    the sum; at a tie both are the even number of tenths. *)
Theorem linear_predictor_formula (p : PatientInput) :
  exists m n : Z,
    (bmi p = IZR m / 10 /\
     Rabs (IZR m / 10 - unrounded_bmi p) <= 5 / 100 /\
     (Rabs (IZR m / 10 - unrounded_bmi p) = 5 / 100 -> Z.even m = true)) /\
    score p = spec_linear_predictor (IZR m / 10) p /\
    (screening_index p = IZR n / 10 /\
     Rabs (IZR n / 10
           - 100 * (1 / (1 + exp (- spec_linear_predictor (IZR m / 10) p))))
     <= 5 / 100 /\
     (Rabs (IZR n / 10
            - 100 * (1 / (1 + exp (- spec_linear_predictor (IZR m / 10) p))))
      = 5 / 100 -> Z.even n = true)).
Proof.
  destruct (round1_spec (unrounded_bmi p)) as (m & Bm & Bn & Bt).
  assert (B : bmi p = IZR m / 10) by exact Bm.
  assert (E : score p = spec_linear_predictor (IZR m / 10) p).
  { unfold score. rewrite B, score_with_sum, score_before_bmd_sum.
    unfold spec_linear_predictor.
    unfold BASELINE, AGE_WEIGHT, SEX_MALE_WEIGHT, BMI_WEIGHT,
      PRIOR_FRACTURE_WEIGHT, PARENT_HIP_WEIGHT, SMOKER_WEIGHT,
      GLUCOCORTICOSTEROID_WEIGHT, RHEUMATOID_WEIGHT,
      SECONDARY_OSTEOPOROSIS_WEIGHT, ALCOHOL_WEIGHT, FALL_WEIGHT,
      IMMOBILITY_WEIGHT, BMD_WEIGHT.
    destruct (sex p); simpl sex_eqb; cbv iota; reflexivity. }
  destruct (round1_spec (prob_like (score p) * 100)) as (n & In & Nn & Nt).
  exists m, n. rewrite <- E.
  replace (100 * (1 / (1 + exp (- score p)))) with (prob_like (score p) * 100)
    by (unfold prob_like; ring).
  repeat split; assumption.
Qed.

(** ** The interpretation bands *)

Ltac band :=
  unfold interpretation_of, Rltb;
  repeat (destruct (Rlt_dec _ _); try lra);
  reflexivity.

(** C2.  The label is read off the rounded index by half-open bands taken
    in order: below 10 it is "Low", from 10 and below 20 "Mild", from 20
    and below 35 "Moderate", from 35 on "High".  In particular 10.0, 20.0
    and 35.0 give "Mild", "Moderate" and "High", 9.9 gives "Low" and 34.9
    gives "Moderate". *)
Theorem interpretation_bands (p : PatientInput) :
  (screening_index p < 10 ->
   interpretation p = "Low (screening only)."%string) /\
  (10 <= screening_index p < 20 ->
   interpretation p =
     "Mild (consider bone densitometry if other concerns)."%string) /\
  (20 <= screening_index p < 35 ->
   interpretation p =
     "Moderate (consider referral for further assessment / DXA)."%string) /\
  (35 <= screening_index p ->
   interpretation p =
     "High (refer for DXA and specialist assessment)."%string) /\
  interpretation_of 10 =
    "Mild (consider bone densitometry if other concerns)."%string /\
  interpretation_of 20 =
    "Moderate (consider referral for further assessment / DXA)."%string /\
  interpretation_of 35 =
    "High (refer for DXA and specialist assessment)."%string /\
  interpretation_of (99 / 10) = "Low (screening only)."%string /\
  interpretation_of (349 / 10) =
    "Moderate (consider referral for further assessment / DXA)."%string.
Proof.
  unfold interpretation.
  repeat split; try (intros H; band); band.
Qed.

(** ** The femoral neck BMD lines *)

Lemma bmd_term_guard (p : PatientInput) :
  bmd_term p =
    if bmd_guard (femoral_neck_bmd p)
    then BMD_WEIGHT * (femoral_neck_bmd p - 7 / 10) else 0.
Proof.
  unfold bmd_term, score, score_with. cbv zeta.
  destruct (bmd_guard (femoral_neck_bmd p)); ring.
Qed.

(** C4.  With the BMD box at 0.0 the BMD lines add exactly 0 to the linear
    predictor, whatever the other inputs; with a BMD above 0.0 they add
    -2.5 times (BMD - 0.7). *)
Theorem bmd_sentinel (p : PatientInput) :
  (femoral_neck_bmd p = 0 -> bmd_term p = 0) /\
  (0 < femoral_neck_bmd p ->
   bmd_term p = - (25 / 10) * (femoral_neck_bmd p - 7 / 10)).
Proof.
  rewrite bmd_term_guard. split; intros H.
  - replace (bmd_guard (femoral_neck_bmd p)) with false; [reflexivity |].
    symmetry. apply not_true_is_false. rewrite bmd_guard_iff. lra.
  - apply bmd_guard_iff in H. rewrite H. reflexivity.
Qed.

(** C4 on example 1, with its BMD box at 0.0 and then at 0.8. *)
Lemma bmd_sentinel_witness :
  bmd_term example_1 = 0 /\
  bmd_term (with_bmd (8 / 10) example_1) = - (25 / 10) * (8 / 10 - 7 / 10).
Proof.
  split.
  - apply (bmd_sentinel example_1). reflexivity.
  - apply (bmd_sentinel (with_bmd (8 / 10) example_1)). simpl. lra.
Defined.

(** C10.  The guard of the BMD lines holds exactly for a strictly positive
    BMD: it asks for a non-zero value and for a value above 0.0.  So every
    BMD at or below 0.0, not only 0.0 itself, adds nothing to the linear
    predictor, and every BMD above 0.0 adds its term. *)
Theorem bmd_guard_strictly_positive (p : PatientInput) :
  (bmd_guard (femoral_neck_bmd p) = true <->
   femoral_neck_bmd p <> 0 /\ 0 < femoral_neck_bmd p) /\
  (bmd_guard (femoral_neck_bmd p) = true <-> 0 < femoral_neck_bmd p) /\
  (femoral_neck_bmd p <= 0 -> score p = score_before_bmd (bmi p) p) /\
  (0 < femoral_neck_bmd p ->
   score p =
     score_before_bmd (bmi p) p
     + BMD_WEIGHT * (femoral_neck_bmd p - 7 / 10)).
Proof.
  split; [| split; [apply bmd_guard_iff |]].
  - unfold bmd_guard. now rewrite andb_true_iff, truthy_neq, Rltb_lt.
  - unfold score. rewrite score_with_sum.
    split; intros H; destruct (Rlt_dec 0 (femoral_neck_bmd p)); lra.
Qed.

(** C10 on example 1, with its BMD box at -1.0 and then at 0.8. *)
Lemma bmd_guard_witness :
  score (with_bmd (- 1) example_1) =
    score_before_bmd (bmi (with_bmd (- 1) example_1))
      (with_bmd (- 1) example_1) /\
  bmd_guard (femoral_neck_bmd (with_bmd (8 / 10) example_1)) = true.
Proof.
  split.
  - apply (bmd_guard_strictly_positive (with_bmd (- 1) example_1)).
    simpl. lra.
  - apply (bmd_guard_strictly_positive (with_bmd (8 / 10) example_1)).
    simpl. lra.
Defined.

(** ** The range of the index *)

Lemma prob_like_unit (s : R) : 0 < prob_like s < 1.
Proof.
  unfold prob_like. pose proof (exp_pos (- s)) as He.
  assert (H : 0 < / (1 + exp (- s))) by (apply Rinv_0_lt_compat; lra).
  split; [lra |].
  unfold Rdiv. rewrite Rmult_1_l.
  rewrite <- Rinv_1 at 2. apply Rinv_lt_contravar; lra.
Qed.

(** C8.  The screening index lies between 0 and 100 and is a whole number
    of tenths. *)
Theorem screening_index_range (p : PatientInput) :
  0 <= screening_index p <= 100 /\
  exists n : Z, (0 <= n <= 1000)%Z /\ screening_index p = IZR n / 10.
Proof.
  unfold screening_index, index_of_score, round.
  pose proof (prob_like_unit (score p)) as [Hl Hu].
  set (n := rint (prob_like (score p) * 100 * 10 ^ 1)).
  assert (Hn : (0 <= n <= 1000)%Z).
  { apply rint_between. simpl. lra. }
  destruct Hn as [H0 H1]. apply IZR_le in H0, H1.
  simpl pow. split; [lra |].
  exists n. split; [split; apply le_IZR; lra |]. f_equal. ring.
Qed.

(** ** Concrete runs *)

(** The index of a score, read off an enclosure of the exponential. *)
Lemma index_of_score_enclosed (s lo hi : R) (n : Z) :
  lo < exp (- s) < hi -> 0 <= lo -> 1 / 2 < IZR n ->
  (IZR n - 1 / 2) / 10 * (1 + hi) <= 100 ->
  100 <= (IZR n + 1 / 2) / 10 * (1 + lo) ->
  index_of_score s = IZR n / 10.
Proof.
  intros [Hlo Hhi] H0 Hn Hl Hu.
  unfold index_of_score. apply round1_unique. unfold prob_like.
  set (e := exp (- s)) in *.
  assert (He : 0 < 1 + e) by lra.
  assert (Hi : 0 < / (1 + e)) by now apply Rinv_0_lt_compat.
  assert (E : 1 / (1 + e) * 100 * (1 + e) = 100) by (field; lra).
  split; apply Rmult_lt_reg_r with (1 + e); try exact He; rewrite E.
  - apply Rlt_le_trans with ((IZR n - 1 / 2) / 10 * (1 + hi)); [| exact Hl].
    apply Rmult_lt_compat_l; lra.
  - apply Rle_lt_trans with ((IZR n + 1 / 2) / 10 * (1 + lo)); [exact Hu |].
    apply Rmult_lt_compat_l; lra.
Qed.

Lemma exp_3115 : 383 / 17 < exp (3115 / 1000) < 1917 / 83.
Proof.
  split.
  - apply (exp_above 16 _ (10 ^ 18) 1000047531127929687);
      [lia | lia | lia | simpl; lra | reflexivity].
  - apply (exp_below 16 _ (10 ^ 18) 999952468872070312);
      [lia | lia | lia | simpl; lra | reflexivity].
Qed.

Lemma exp_1215 : 1541 / 459 < exp (1215 / 1000) < 1543 / 457.
Proof.
  split.
  - apply (exp_above 16 _ (10 ^ 18) 1000018539428710937);
      [lia | lia | lia | simpl; lra | reflexivity].
  - apply (exp_below 16 _ (10 ^ 18) 999981460571289062);
      [lia | lia | lia | simpl; lra | reflexivity].
Qed.

Lemma bmi_example : bmi example_1 = 273 / 10 /\ bmi example_2 = 273 / 10.
Proof.
  split; apply (bmi_of_exact _ 273); simpl; lra.
Qed.

Ltac weights :=
  unfold BASELINE, AGE_WEIGHT, SEX_MALE_WEIGHT, BMI_WEIGHT,
    PRIOR_FRACTURE_WEIGHT, PARENT_HIP_WEIGHT, SMOKER_WEIGHT,
    GLUCOCORTICOSTEROID_WEIGHT, RHEUMATOID_WEIGHT,
    SECONDARY_OSTEOPOROSIS_WEIGHT, ALCOHOL_WEIGHT, FALL_WEIGHT,
    IMMOBILITY_WEIGHT, BMD_WEIGHT.

(** The linear predictor of a concrete submission whose body mass index
    is known. *)
Ltac predictor E :=
  unfold score; rewrite E, score_with_sum, score_before_bmd_sum;
  cbn [age sex weight height_cm femoral_neck_bmd prior_fracture parent_hip
       current_smoker glucocorticoids rheumatoid secondary_osteoporosis
       alcohol_3_more fall_in_last_year immobility sex_eqb];
  weights;
  repeat (destruct (Rlt_dec _ _); try lra).

Lemma score_example_1 : score example_1 = - (3115 / 1000).
Proof. destruct bmi_example as [E _]. unfold example_1 in *. predictor E. Qed.

Lemma score_example_2 : score example_2 = - (1215 / 1000).
Proof. destruct bmi_example as [_ E]. unfold example_2 in *. predictor E. Qed.

Lemma index_example_1 : screening_index example_1 = 42 / 10.
Proof.
  unfold screening_index. rewrite score_example_1.
  apply (index_of_score_enclosed _ (383 / 17) (1917 / 83)); try lra.
  rewrite Ropp_involutive. exact exp_3115.
Qed.

Lemma index_example_2 : screening_index example_2 = 229 / 10.
Proof.
  unfold screening_index. rewrite score_example_2.
  apply (index_of_score_enclosed _ (1541 / 459) (1543 / 457)); try lra.
  rewrite Ropp_involutive. exact exp_1215.
Qed.

Lemma exp_1915 : 1743 / 257 < exp (1915 / 1000) < 349 / 51.
Proof.
  split.
  - apply (exp_above 16 _ (10 ^ 18) 1000029220581054687);
      [lia | lia | lia | simpl; lra | reflexivity].
  - apply (exp_below 16 _ (10 ^ 18) 999970779418945312);
      [lia | lia | lia | simpl; lra | reflexivity].
Qed.

Lemma index_example_mild : screening_index example_mild = 128 / 10.
Proof.
  assert (B : bmi example_mild = 273 / 10) by exact (proj1 bmi_example).
  assert (S : score example_mild = - (1915 / 1000))
    by (unfold example_mild in *; predictor B).
  unfold screening_index. rewrite S.
  apply (index_of_score_enclosed _ (1743 / 257) (349 / 51)); try lra.
  rewrite Ropp_involutive. exact exp_1915.
Qed.

(** C5.  The two end-to-end reference vectors: a woman of 65, 70.0 kg,
    160.0 cm, no BMD and no risk factor has body mass index 27.3, linear
    predictor -3.115, screening index 4.2 and the label "Low"; with a prior
    fracture and a parental hip fracture added, the predictor is -1.215,
    the index 22.9 and the label "Moderate". *)
Theorem reference_vectors :
  (bmi example_1 = 273 / 10 /\
   score example_1 = - (3115 / 1000) /\
   screening_index example_1 = 42 / 10 /\
   interpretation example_1 = "Low (screening only)."%string) /\
  (bmi example_2 = 273 / 10 /\
   score example_2 = - (1215 / 1000) /\
   screening_index example_2 = 229 / 10 /\
   interpretation example_2 =
     "Moderate (consider referral for further assessment / DXA)."%string).
Proof.
  pose proof bmi_example as [B1 B2].
  repeat split;
    auto using score_example_1, score_example_2, index_example_1,
      index_example_2.
  - unfold interpretation. rewrite index_example_1. band.
  - unfold interpretation. rewrite index_example_2. band.
Qed.

(** ** Rounding the body mass index first *)

Lemma bmi_crafted :
  bmi crafted = 250 / 10 /\
  2495 / 100 <= unrounded_bmi crafted <= 24954 / 1000.
Proof.
  split.
  - apply (bmi_of_exact _ 250); simpl; lra.
  - pose proof (unrounded_bmi_enclosed crafted) as H. simpl in H.
    lra.
Qed.

Lemma crafted_in_domain : in_domain crafted.
Proof.
  unfold in_domain. simpl. repeat split; try lia; try lra.
Qed.





(** The same for 73.6 kg at 160 cm. *)
Lemma bmi_below_a_tie : bmi below_a_tie = 287 / 10.
Proof.
  assert (A : truediv 160 100 = 7205759403792794 * powerRZ 2 (0 - 52)).
  { apply (b64_eval _ 0 7205759403792794); simpl; lra. }
  assert (D : float_pow (truediv 160 100) 2
              = 5764607523034236 * powerRZ 2 (1 - 52)).
  { unfold float_pow. rewrite A.
    apply (b64_eval _ 1 5764607523034236); simpl; lra. }
  assert (W : b64 (736 / 10) = 5179139571476070 * powerRZ 2 (6 - 52)).
  { apply (b64_eval _ 6 5179139571476070); simpl; lra. }
  assert (Q : unrounded_bmi below_a_tie
              = 8092405580431358 * powerRZ 2 (4 - 52)).
  { unfold unrounded_bmi. simpl weight. simpl height_cm. rewrite D, W.
    apply (b64_eval _ 4 8092405580431358); simpl; lra. }
  unfold bmi. fold (unrounded_bmi below_a_tie). rewrite Q.
  apply round1_unique. simpl. lra.
Qed.

(** The same for 36.2 kg at 200 cm. *)
Lemma bmi_above_a_tie : bmi above_a_tie = 91 / 10.
Proof.
  assert (A : truediv 200 100 = 4503599627370496 * powerRZ 2 (1 - 52)).
  { apply (b64_eval _ 1 4503599627370496); simpl; lra. }
  assert (D : float_pow (truediv 200 100) 2
              = 4503599627370496 * powerRZ 2 (2 - 52)).
  { unfold float_pow. rewrite A.
    apply (b64_eval _ 2 4503599627370496); simpl; lra. }
  assert (W : b64 (362 / 10) = 5094697078462874 * powerRZ 2 (5 - 52)).
  { apply (b64_eval _ 5 5094697078462874); simpl; lra. }
  assert (Q : unrounded_bmi above_a_tie
              = 5094697078462874 * powerRZ 2 (3 - 52)).
  { unfold unrounded_bmi. simpl weight. simpl height_cm. rewrite D, W.
    apply (b64_eval _ 3 5094697078462874); simpl; lra. }
  unfold bmi. fold (unrounded_bmi above_a_tie). rewrite Q.
  apply round1_unique. simpl. lra.
Qed.

Lemma exp_1385 : 1599 / 401 < exp (1385 / 1000) < 1601 / 399.
Proof.
  split.
  - apply (exp_above 16 _ (10 ^ 18) 1000021133422851562);
      [lia | lia | lia | simpl; lra | reflexivity].
  - apply (exp_below 16 _ (10 ^ 18) 999978866577148437);
      [lia | lia | lia | simpl; lra | reflexivity].
Qed.

(** The run for 80 years, 73.6 kg and 160 cm: body mass index 28.7, linear
    predictor -1.385, index 20.0, "Moderate". *)
Lemma run_below_a_tie :
  bmi below_a_tie = 287 / 10 /\
  score below_a_tie = - (1385 / 1000) /\
  screening_index below_a_tie = 200 / 10 /\
  interpretation below_a_tie =
    "Moderate (consider referral for further assessment / DXA)."%string.
Proof.
  pose proof bmi_below_a_tie as B.
  assert (S : score below_a_tie = - (1385 / 1000))
    by (unfold below_a_tie in *; predictor B).
  assert (I : screening_index below_a_tie = 200 / 10).
  { unfold screening_index. rewrite S.
    apply (index_of_score_enclosed _ (1599 / 401) (1601 / 399)); try lra.
    rewrite Ropp_involutive. exact exp_1385. }
  repeat split; try assumption.
  unfold interpretation. rewrite I. band.
Qed.


(** ** Monotonicity *)

Lemma prob_like_increasing (s t : R) : s < t -> prob_like s < prob_like t.
Proof.
  intros H. unfold prob_like, Rdiv. rewrite !Rmult_1_l.
  pose proof (exp_pos (- s)). pose proof (exp_pos (- t)).
  assert (exp (- t) < exp (- s)) by (apply exp_increasing; lra).
  apply Rinv_lt_contravar; [| lra].
  apply Rmult_lt_0_compat; lra.
Qed.

Lemma index_of_score_mono (s t : R) :
  s <= t -> index_of_score s <= index_of_score t.
Proof.
  intros [H | ->]; [| lra].
  unfold index_of_score. apply round1_mono.
  pose proof (prob_like_increasing s t H). lra.
Qed.

Lemma score_with_age (a : Z) (p : PatientInput) :
  score (with_age a p) = score p + AGE_WEIGHT * IZR (a - age p).
Proof.
  unfold score. rewrite !score_with_sum, !score_before_bmd_sum.
  rewrite minus_IZR. unfold bmi. simpl. ring.
Qed.

Lemma score_with_bmd (x : R) (p : PatientInput) :
  0 < x ->
  score (with_bmd x p) = score_before_bmd (bmi p) p + BMD_WEIGHT * (x - 7 / 10).
Proof.
  intros H. unfold score. rewrite score_with_sum. simpl femoral_neck_bmd.
  destruct (Rlt_dec 0 x); [| contradiction].
  rewrite !score_before_bmd_sum. unfold bmi. simpl. ring.
Qed.

Lemma score_with_factor (f : Factor) (p : PatientInput) :
  score (with_factor f false p) < score (with_factor f true p).
Proof.
  unfold score. rewrite !score_with_sum, !score_before_bmd_sum.
  destruct f; unfold bmi; simpl; weights; lra.
Qed.

Lemma saturated_indices :
  screening_index saturated = 1000 / 10 /\
  screening_index (with_age 100 saturated) = 1000 / 10.
Proof.
  assert (B : bmi saturated = 250 / 10).
  { apply (bmi_of_exact _ 250); simpl; lra. }
  assert (S : score saturated = 848 / 100)
    by (unfold saturated in *; predictor B).
  assert (S' : score (with_age 100 saturated) = 86 / 10).
  { rewrite score_with_age, S. unfold AGE_WEIGHT. simpl. lra. }
  assert (E : forall x, 848 / 100 <= x -> exp (- x) < 1 / 2000).
  { intros x Hx.
    assert (H1 : 2000 / 1 < exp (848 / 100)).
    { apply (exp_above 16 _ (10 ^ 18) 1000129394531250000);
        [lia | lia | lia | simpl; lra | reflexivity]. }
    assert (H2 : exp (848 / 100) <= exp x).
    { destruct Hx as [Hx | <-]; [left; now apply exp_increasing | lra]. }
    assert (He : exp x * exp (- x) = 1)
      by (rewrite <- exp_plus, Rplus_opp_r; apply exp_0).
    pose proof (exp_pos (- x)) as Hp.
    assert (H3 : 2000 * exp (- x) < exp x * exp (- x))
      by (apply Rmult_lt_compat_r; lra).
    lra. }
  unfold screening_index. rewrite S, S'.
  split; apply (index_of_score_enclosed _ 0 (1 / 2000)); try lra;
    (split; [apply exp_pos | apply E; lra]).
Qed.

(** Against C6 as stated: from 99 to 100 years, every risk factor present,
    the linear predictor rises and the screening index stays at 100.0. *)
Lemma older_same_index :
  (age saturated < 100)%Z /\
  score saturated < score (with_age 100 saturated) /\
  screening_index (with_age 100 saturated) = screening_index saturated.
Proof.
  destruct saturated_indices as [I1 I2].
  split; [simpl; lia |]. split.
  - rewrite score_with_age. unfold AGE_WEIGHT. simpl. lra.
  - now rewrite I1, I2.
Qed.

(** C6, amended.  All other inputs fixed, a higher age strictly raises the
    linear predictor and never lowers the screening index; a higher
    femoral neck BMD, among values above 0, strictly lowers the linear
    predictor; and ticking any one of the nine risk factors strictly raises
    it. *)
Theorem monotonicity (p : PatientInput) :
  (forall a b : Z, (a < b)%Z ->
     score (with_age a p) < score (with_age b p) /\
     screening_index (with_age a p) <= screening_index (with_age b p)) /\
  (forall x y : R, 0 < x < y ->
     score (with_bmd y p) < score (with_bmd x p)) /\
  (forall f : Factor,
     score (with_factor f false p) < score (with_factor f true p)).
Proof.
  split; [| split].
  - intros a b Hab.
    assert (H : score (with_age a p) < score (with_age b p)).
    { rewrite !score_with_age, !minus_IZR. apply IZR_lt in Hab.
      unfold AGE_WEIGHT. lra. }
    split; [exact H |].
    apply index_of_score_mono. lra.
  - intros x y [Hx Hxy].
    rewrite !score_with_bmd by lra. unfold BMD_WEIGHT. lra.
  - intros f. apply score_with_factor.
Qed.

(** C6 on example 1: one more year, and a BMD of 1.0 against 0.5. *)
Lemma monotonicity_witness :
  score (with_age 65 example_1) < score (with_age 66 example_1) /\
  score (with_bmd 1 example_1) < score (with_bmd (1 / 2) example_1).
Proof.
  split.
  - apply (monotonicity example_1). lia.
  - apply (monotonicity example_1). lra.
Defined.

(** ** The export *)

Lemma needs_quoting_app (a b : string) :
  needs_quoting (a ++ b) = needs_quoting a || needs_quoting b.
Proof.
  induction a as [| c a IH]; simpl; [reflexivity |].
  now rewrite IH, orb_assoc.
Qed.

Lemma needs_quoting_zeros (n : nat) : needs_quoting (zeros n) = false.
Proof. induction n as [| n IH]; simpl; [reflexivity | exact IH]. Qed.

Lemma needs_quoting_uint (u : Decimal.uint) :
  needs_quoting (NilEmpty.string_of_uint u) = false.
Proof. induction u; simpl; auto. Qed.

Lemma needs_quoting_zfill (width n : nat) : needs_quoting (zfill width n) = false.
Proof.
  unfold zfill. cbv zeta. rewrite needs_quoting_app, needs_quoting_zeros.
  unfold NilZero.string_of_uint.
  destruct (Nat.to_uint n); try apply needs_quoting_uint. reflexivity.
Qed.

(** A date in ISO format is written as it is. *)
Lemma csv_field_isoformat (d : date) : csv_field (isoformat d) = isoformat d.
Proof.
  unfold csv_field, isoformat.
  rewrite !needs_quoting_app, !needs_quoting_zfill. reflexivity.
Qed.

Lemma csv_field_sex (s : Sex) : csv_field (sex_label s) = sex_label s.
Proof. destruct s; reflexivity. Qed.

(** None of the four labels needs quotes. *)
Lemma csv_field_interpretation (x : R) :
  csv_field (interpretation_of x) = interpretation_of x.
Proof.
  unfold interpretation_of.
  repeat (destruct (Rltb _ _); [reflexivity |]). reflexivity.
Qed.

Lemma to_csv_user_data (repr_float : R -> string) (lineterminator : string)
  (d : date) (p : PatientInput) :
  to_csv repr_float lineterminator (user_data d p) =
    Some
      (("date,age,sex,weight_kg,height_cm,bmi,femoral_neck_bmd,screening_index,interpretation"
           ++ lineterminator)
          ++ ((isoformat d ++ "," ++ str_int (age p) ++ ","
               ++ sex_label (sex p) ++ "," ++ repr_float (weight p) ++ ","
               ++ repr_float (height_cm p) ++ "," ++ repr_float (bmi p) ++ ","
               ++ repr_float (femoral_neck_bmd p) ++ ","
               ++ repr_float (screening_index p) ++ "," ++ interpretation p)
              ++ lineterminator))%string.
Proof.
  unfold to_csv, user_data.
  cbn [nrows List.length rows row nth_error render map fst snd app
       String.concat].
  rewrite csv_field_isoformat, csv_field_sex.
  unfold interpretation. rewrite csv_field_interpretation.
  reflexivity.
Qed.

(** The page of a submitted form. *)
Lemma script_submitted (World : Type) (env : Env World)
  (repr_float : R -> string) (lineterminator : string) (s s1 s2 : World)
  (p : PatientInput) (d : date) :
  form env s = ((p, true), s1) -> today env s1 = (d, s2) ->
  exists csv : string,
    to_csv repr_float lineterminator (user_data d p) = Some csv /\
    fst (script repr_float lineterminator env s) =
      [ Metric (bmi p); Write (screening_index p); Info (interpretation p);
        DownloadButton {| data := encode_utf8 csv;
                          file_name := "fracture_screening_result.csv";
                          mime := "text/csv" |};
        Dataframe (user_data d p) ].
Proof.
  intros F T. eexists. split; [apply to_csv_user_data |].
  unfold script, bind. rewrite F. cbn [fst snd]. rewrite T.
  rewrite to_csv_user_data. reflexivity.
Qed.

(** The page before the form is submitted. *)
Lemma script_not_submitted (World : Type) (env : Env World)
  (repr_float : R -> string) (lineterminator : string) (s s1 : World)
  (p : PatientInput) :
  form env s = ((p, false), s1) ->
  fst (script repr_float lineterminator env s) = [Metric (bmi p)].
Proof.
  intros F. unfold script, bind. rewrite F. reflexivity.
Qed.

Lemma result_of_script (World : Type) (env : Env World)
  (repr_float : R -> string) (lineterminator : string) (s : World) :
  result_shown (fst (script repr_float lineterminator env s)) =
    let p := fst (fst (form env s)) in
    if snd (fst (form env s))
    then [Metric (bmi p); Write (screening_index p); Info (interpretation p)]
    else [Metric (bmi p)].
Proof.
  destruct (form env s) as [[p b] s1] eqn:F. cbn [fst snd]. destruct b.
  - destruct (today env s1) as [d s2] eqn:T.
    destruct (script_submitted World env repr_float lineterminator
                s s1 s2 p d F T) as (csv & _ & E).
    rewrite E. reflexivity.
  - rewrite (script_not_submitted World env repr_float lineterminator
               s s1 p F).
    reflexivity.
Qed.

(** C7.  The result of a run is a function of what the form holds and of
    nothing else.  Take two runs of the script, each against an outside of
    its own (any answers to the widget calls and to the clock, any state
    kept and changed between the calls, any printing of floats and any
    line ending): if the form holds the same values in both, both show the
    same body mass index, screening index and label, and for a submitted
    form these are the ones [computeScreening] gives. *)
Theorem deterministic (World1 World2 : Type) (env1 : Env World1)
  (env2 : Env World2) (repr1 repr2 : R -> string) (nl1 nl2 : string)
  (s1 : World1) (s2 : World2) :
  fst (form env1 s1) = fst (form env2 s2) ->
  result_shown (fst (script repr1 nl1 env1 s1)) =
    result_shown (fst (script repr2 nl2 env2 s2)) /\
  (forall p : PatientInput,
     fst (form env1 s1) = (p, true) ->
     result_shown (fst (script repr1 nl1 env1 s1)) =
       [ Metric (result_bmi (computeScreening p));
         Write (result_screening_index (computeScreening p));
         Info (result_interpretation (computeScreening p)) ]).
Proof.
  intros H. rewrite !result_of_script. split.
  - now rewrite H.
  - intros p E. rewrite E. reflexivity.
Qed.

(** C7 on two runs that fill the form with example 1: one against an
    outside that counts its calls and takes the date from the count, one
    against an outside without state. *)
Lemma deterministic_witness :
  result_shown (fst (script (fun _ => "0.0"%string) "x" counting 0%nat)) =
    result_shown (fst (script (fun _ => "1"%string) "y" still tt)).
Proof.
  exact (proj1 (deterministic nat unit counting still
                  (fun _ => "0.0"%string) (fun _ => "1"%string) "x" "y"
                  0%nat tt eq_refl)).
Defined.

(** C9.  For a submitted form the page has a download whose bytes are the
    text of a header row and exactly one data row, each ended by the line
    terminator, the fields separated by commas and in this order: date,
    age, sex, weight_kg, height_cm, bmi, femoral_neck_bmd, screening_index,
    interpretation.  The file is named fracture_screening_result.csv and
    its MIME type is text/csv. *)
Theorem csv_export (World : Type) (env : Env World)
  (repr_float : R -> string) (lineterminator : string) (s s1 s2 : World)
  (p : PatientInput) (d : date) :
  form env s = ((p, true), s1) -> today env s1 = (d, s2) ->
  nrows (user_data d p) = 1%nat /\
  In (DownloadButton
        {| data :=
             list_byte_of_string
               (("date,age,sex,weight_kg,height_cm,bmi,femoral_neck_bmd,screening_index,interpretation"
           ++ lineterminator)
          ++ ((isoformat d ++ "," ++ str_int (age p) ++ ","
               ++ sex_label (sex p) ++ "," ++ repr_float (weight p) ++ ","
               ++ repr_float (height_cm p) ++ "," ++ repr_float (bmi p) ++ ","
               ++ repr_float (femoral_neck_bmd p) ++ ","
               ++ repr_float (screening_index p) ++ "," ++ interpretation p)
              ++ lineterminator))%string;
           file_name := "fracture_screening_result.csv";
           mime := "text/csv" |})
     (fst (script repr_float lineterminator env s)).
Proof.
  intros F T. split; [reflexivity |].
  destruct (script_submitted World env repr_float lineterminator
              s s1 s2 p d F T) as (csv & C & E).
  rewrite to_csv_user_data in C. injection C as <-.
  rewrite E. cbn [In]. right. right. right. left. reflexivity.
Qed.

(** C9 on example 1, submitted on 3 November 2026. *)
Lemma csv_export_witness :
  exists b : Download,
    In (DownloadButton b)
       (fst (script (fun _ => "0.0"%string) "x" still tt)) /\
    file_name b = "fracture_screening_result.csv"%string /\
    mime b = "text/csv"%string.
Proof.
  eexists. split; [| split].
  - apply (csv_export unit still (fun _ => "0.0"%string) "x" tt tt tt
             example_1 (mkDate 2026 11 3) eq_refl eq_refl).
  - reflexivity.
  - reflexivity.
Defined.

(** The bands of C2 on four runs, of index 4.2, 12.8, 22.9 and 100.0. *)
Lemma interpretation_bands_witness :
  interpretation example_1 = "Low (screening only)."%string /\
  interpretation example_mild =
    "Mild (consider bone densitometry if other concerns)."%string /\
  interpretation example_2 =
    "Moderate (consider referral for further assessment / DXA)."%string /\
  interpretation saturated =
    "High (refer for DXA and specialist assessment)."%string.
Proof.
  split; [| split; [| split]].
  - apply (interpretation_bands example_1). rewrite index_example_1. lra.
  - apply (interpretation_bands example_mild).
    rewrite index_example_mild. lra.
  - apply (interpretation_bands example_2). rewrite index_example_2. lra.
  - apply (interpretation_bands saturated).
    destruct saturated_indices as [E _]. rewrite E. lra.
Defined.

(** * Further properties of the scoring block *)

(** ** What rounding the body mass index costs *)

Lemma Rabs_bound (a b : R) : Rabs a <= b -> - b <= a <= b.
Proof. unfold Rabs. destruct (Rcase_abs a); lra. Qed.

Lemma round1_near (x : R) : Rabs (round x 1 - x) <= 5 / 100.
Proof.
  unfold round. pose proof (rint_near (x * 10 ^ 1)) as [Hl Hu].
  simpl in *. apply Rabs_le. lra.
Qed.

Lemma rint_gap (x y : R) :
  Rabs (x - y) < 1 -> (Z.abs (rint x - rint y) <= 1)%Z.
Proof.
  intros H. apply Rabs_def2 in H. destruct H as [H1 H2].
  pose proof (rint_near x) as [Xl Xu]. pose proof (rint_near y) as [Yl Yu].
  assert (A : (rint x - rint y < 2)%Z).
  { apply lt_IZR. rewrite minus_IZR. lra. }
  assert (B : (- 2 < rint x - rint y)%Z).
  { apply lt_IZR. rewrite minus_IZR. lra. }
  lia.
Qed.

(** The logistic transform has slope at most a quarter. *)
Lemma prob_like_gap (s t : R) :
  s <= t -> t - s < 1 ->
  0 <= prob_like t - prob_like s <= (t - s) / (1 - (t - s)) / 4.
Proof.
  intros Hst Hd.
  set (d := t - s) in *.
  assert (Hd0 : 0 <= d) by (unfold d; lra).
  pose proof (exp_pos (- t)) as Ha. set (a := exp (- t)) in *.
  pose proof (exp_ineq1_le d) as HE1.
  pose proof (exp_ineq1_le (- d)) as HE2.
  assert (HE : exp d * exp (- d) = 1)
    by (rewrite <- exp_plus, Rplus_opp_r; apply exp_0).
  set (E := exp d) in *.
  assert (Hb : exp (- s) = a * E).
  { unfold a, E. rewrite <- exp_plus. f_equal. unfold d. ring. }
  assert (HE3 : E * (1 - d) <= 1).
  { rewrite <- HE. apply Rmult_le_compat_l; lra. }
  unfold prob_like. fold a. rewrite Hb.
  assert (HaE : 0 < a * E) by (apply Rmult_lt_0_compat; lra).
  assert (Hid : 1 / (1 + a) - 1 / (1 + a * E)
                = a * (E - 1) / ((1 + a) * (1 + a * E))) by (field; lra).
  rewrite Hid.
  assert (Hden : 0 < (1 + a) * (1 + a * E)) by (apply Rmult_lt_0_compat; lra).
  assert (Hnum : 0 <= a * (E - 1)) by (apply Rmult_le_pos; lra).
  split.
  - apply Rmult_le_pos; [exact Hnum |]. left. now apply Rinv_0_lt_compat.
  - assert (HK : E - 1 <= d / (1 - d)).
    { apply Rmult_le_reg_r with (1 - d); [lra |].
      replace (d / (1 - d) * (1 - d)) with d by (field; lra). lra. }
    assert (H4 : 4 * a <= (1 + a) * (1 + a * E)).
    { assert (a * 1 <= a * E) by (apply Rmult_le_compat_l; lra).
      assert (0 <= (1 - a) * (1 - a)) by (apply Rle_0_sqr || nra). nra. }
    apply Rle_trans with ((E - 1) / 4).
    + apply Rmult_le_reg_r with ((1 + a) * (1 + a * E)); [exact Hden |].
      replace (a * (E - 1) / ((1 + a) * (1 + a * E)) * ((1 + a) * (1 + a * E)))
        with (a * (E - 1)) by (field; lra).
      replace ((E - 1) / 4 * ((1 + a) * (1 + a * E)))
        with ((E - 1) * ((1 + a) * (1 + a * E) / 4)) by field.
      rewrite (Rmult_comm a). apply Rmult_le_compat_l; lra.
    + lra.
Qed.

(** Two scores at most 0.0025 apart give indices at most a tenth apart. *)
Lemma index_of_score_gap (s t : R) :
  Rabs (t - s) <= 25 / 10000 ->
  Rabs (index_of_score t - index_of_score s) <= 1 / 10.
Proof.
  assert (W : forall u v, u <= v -> v - u <= 25 / 10000 ->
              Rabs (index_of_score v - index_of_score u) <= 1 / 10).
  { intros u v Huv Hd.
    destruct (prob_like_gap u v Huv ltac:(lra)) as [G0 G1].
    assert (G2 : (v - u) / (1 - (v - u)) <= 26 / 10000).
    { apply Rmult_le_reg_r with (1 - (v - u)); [lra |].
      replace ((v - u) / (1 - (v - u)) * (1 - (v - u))) with (v - u)
        by (field; lra).
      nra. }
    unfold index_of_score, round.
    set (zv := rint (prob_like v * 100 * 10 ^ 1)).
    set (zu := rint (prob_like u * 100 * 10 ^ 1)).
    assert (Hz : (Z.abs (zv - zu) <= 1)%Z).
    { apply rint_gap. simpl. apply Rabs_def1; lra. }
    apply IZR_le in Hz. rewrite abs_IZR, minus_IZR in Hz.
    simpl pow. apply Rabs_le. apply Rabs_bound in Hz. lra. }
  intros H. apply Rabs_bound in H. destruct (Rle_dec s t) as [L | L].
  - apply W; lra.
  - rewrite Rabs_minus_sym. apply W; lra.
Qed.

(** X1.  Rounding the body mass index before it enters the score moves the
    value by at most 0.05, the linear predictor by at most 0.0025 and the
    screening index by at most one tenth, for every submission. *)
Theorem rounding_bmi_costs_a_tenth (p : PatientInput) :
  Rabs (bmi p - unrounded_bmi p) <= 5 / 100 /\
  Rabs (score p - score_with (unrounded_bmi p) p) <= 25 / 10000 /\
  Rabs (screening_index p - index_with_unrounded_bmi p) <= 1 / 10.
Proof.
  assert (B : Rabs (bmi p - unrounded_bmi p) <= 5 / 100)
    by apply round1_near.
  assert (S : Rabs (score p - score_with (unrounded_bmi p) p) <= 25 / 10000).
  { unfold score. rewrite !score_with_sum, !score_before_bmd_sum.
    unfold BMI_WEIGHT. apply Rabs_bound in B. apply Rabs_le. lra. }
  repeat split; try assumption.
  unfold screening_index, index_with_unrounded_bmi.
  now apply index_of_score_gap.
Qed.

(** ** The labels as bands of the index *)

Lemma label_low (x : R) :
  interpretation_of x = "Low (screening only)."%string <-> x < 10.
Proof.
  unfold interpretation_of, Rltb.
  repeat destruct (Rlt_dec _ _); split; intros H;
    try lra; try discriminate H; reflexivity.
Qed.

Lemma label_mild (x : R) :
  interpretation_of x =
    "Mild (consider bone densitometry if other concerns)."%string
  <-> 10 <= x < 20.
Proof.
  unfold interpretation_of, Rltb.
  repeat destruct (Rlt_dec _ _); split; intros H;
    try lra; try discriminate H; reflexivity.
Qed.

Lemma label_moderate (x : R) :
  interpretation_of x =
    "Moderate (consider referral for further assessment / DXA)."%string
  <-> 20 <= x < 35.
Proof.
  unfold interpretation_of, Rltb.
  repeat destruct (Rlt_dec _ _); split; intros H;
    try lra; try discriminate H; reflexivity.
Qed.

Lemma label_high (x : R) :
  interpretation_of x =
    "High (refer for DXA and specialist assessment)."%string
  <-> 35 <= x.
Proof.
  unfold interpretation_of, Rltb.
  repeat destruct (Rlt_dec _ _); split; intros H;
    try lra; try discriminate H; reflexivity.
Qed.

(** X2.  A submission with a linear predictor at least as high never gets
    a lower index nor a milder label: "Low" and "Mild" pass down to the
    lower predictor, "Moderate" and "High" pass up to the higher one. *)
Theorem riskier_never_milder (p q : PatientInput) :
  score p <= score q ->
  screening_index p <= screening_index q /\
  (interpretation q = "Low (screening only)."%string ->
   interpretation p = "Low (screening only)."%string) /\
  (interpretation q =
     "Mild (consider bone densitometry if other concerns)."%string ->
   interpretation p = "Low (screening only)."%string \/
   interpretation p =
     "Mild (consider bone densitometry if other concerns)."%string) /\
  (interpretation p =
     "Moderate (consider referral for further assessment / DXA)."%string ->
   interpretation q =
     "Moderate (consider referral for further assessment / DXA)."%string \/
   interpretation q =
     "High (refer for DXA and specialist assessment)."%string) /\
  (interpretation p =
     "High (refer for DXA and specialist assessment)."%string ->
   interpretation q =
     "High (refer for DXA and specialist assessment)."%string).
Proof.
  intros H.
  assert (I : screening_index p <= screening_index q)
    by now apply index_of_score_mono.
  unfold interpretation.
  split; [exact I |].
  repeat split; intros L.
  - apply label_low in L. apply label_low. lra.
  - apply label_mild in L.
    destruct (Rlt_dec (screening_index p) 10) as [A | A].
    + left. now apply label_low.
    + right. apply label_mild. lra.
  - apply label_moderate in L.
    destruct (Rlt_dec (screening_index q) 35) as [A | A].
    + left. apply label_moderate. lra.
    + right. apply label_high. lra.
  - apply label_high in L. apply label_high. lra.
Qed.

(** X2 on the two reference vectors: the second has the higher predictor. *)
Lemma riskier_never_milder_witness :
  screening_index example_1 <= screening_index example_2.
Proof.
  apply (riskier_never_milder example_1 example_2).
  rewrite score_example_1, score_example_2. lra.
Defined.

(** ** Where rounding puts the band limits *)

Lemma Int_part_eq (x : R) (n : Z) : IZR n <= x < IZR n + 1 -> Int_part x = n.
Proof.
  intros [Hl Hu]. pose proof (Int_part_bounds x) as [Il Iu].
  assert (H1 : (Int_part x < n + 1)%Z) by (apply lt_IZR; rewrite plus_IZR; lra).
  assert (H2 : (n < Int_part x + 1)%Z) by (apply lt_IZR; rewrite plus_IZR; lra).
  lia.
Qed.

(** A tie just below an even integer goes up to it. *)
Lemma rint_tie_even (n : Z) : Z.even n = true -> rint (IZR n - 1 / 2) = n.
Proof.
  intros He. unfold rint.
  assert (Hf : Int_part (IZR n - 1 / 2) = (n - 1)%Z).
  { apply Int_part_eq. rewrite minus_IZR. lra. }
  rewrite Hf, minus_IZR.
  destruct (Rlt_dec _ _) as [H1 | H1]; [lra |].
  destruct (Rlt_dec _ _) as [H2 | H2]; [lra |].
  rewrite Z.even_sub, He. simpl. lia.
Qed.

Lemma rint_ge_even (x : R) (n : Z) :
  Z.even n = true -> (n <= rint x)%Z <-> IZR n - 1 / 2 <= x.
Proof.
  intros He. split; intros H.
  - apply IZR_le in H. pose proof (rint_near x). lra.
  - rewrite <- (rint_tie_even n He). now apply rint_mono.
Qed.

Lemma index_ge_even (s : R) (n : Z) :
  Z.even n = true ->
  IZR n / 10 <= index_of_score s <-> (IZR n - 1 / 2) / 10 <= prob_like s * 100.
Proof.
  intros He. unfold index_of_score, round. simpl pow.
  pose proof (rint_ge_even (prob_like s * 100 * (10 * 1)) n He) as [F G].
  split; intros H.
  - assert (Hz : (n <= rint (prob_like s * 100 * (10 * 1)))%Z)
      by (apply le_IZR; lra).
    apply F in Hz. lra.
  - assert (Hz : (n <= rint (prob_like s * 100 * (10 * 1)))%Z)
      by (apply G; lra).
    apply IZR_le in Hz. lra.
Qed.

(** The index reaches a whole even number of tenths exactly when the
    unrounded value reaches the tie below it. *)
Lemma index_reaches (s c c' : R) (n : Z) :
  Z.even n = true -> c = IZR n / 10 -> c' = (IZR n - 1 / 2) / 10 ->
  (c <= index_of_score s -> c' <= prob_like s * 100) /\
  (index_of_score s < c -> prob_like s * 100 < c').
Proof.
  intros He -> ->. pose proof (index_ge_even s n He) as [F G].
  split; [exact F |].
  intros H. apply Rnot_le_lt. intros X. apply G in X. lra.
Qed.

(** The label of a score, read off its unrounded index. *)
Lemma label_of_prob (s : R) :
  (interpretation_of (index_of_score s) = "Low (screening only)."%string <->
   prob_like s * 100 < 995 / 100) /\
  (interpretation_of (index_of_score s) =
     "Mild (consider bone densitometry if other concerns)."%string <->
   995 / 100 <= prob_like s * 100 < 1995 / 100) /\
  (interpretation_of (index_of_score s) =
     "Moderate (consider referral for further assessment / DXA)."%string <->
   1995 / 100 <= prob_like s * 100 < 3495 / 100) /\
  (interpretation_of (index_of_score s) =
     "High (refer for DXA and specialist assessment)."%string <->
   3495 / 100 <= prob_like s * 100).
Proof.
  rewrite label_low, label_mild, label_moderate, label_high.
  assert (T1 := index_reaches s 10 (995 / 100) 100 eq_refl).
  assert (T2 := index_reaches s 20 (1995 / 100) 200 eq_refl).
  assert (T3 := index_reaches s 35 (3495 / 100) 350 eq_refl).
  destruct T1 as [U1 D1]; [lra | lra |].
  destruct T2 as [U2 D2]; [lra | lra |].
  destruct T3 as [U3 D3]; [lra | lra |].
  set (i := index_of_score s) in *.
  set (P := prob_like s * 100) in *.
  lra.
Qed.

(** X3.  Because the index is rounded before it is compared, the labels
    change where the unrounded value [prob_like * 100] reaches 9.95, 19.95
    and 34.95: each of these ties rounds up, to 10.0, 20.0 and 35.0. *)
Theorem bands_of_unrounded_index (p : PatientInput) :
  (interpretation p = "Low (screening only)."%string <->
   prob_like (score p) * 100 < 995 / 100) /\
  (interpretation p =
     "Mild (consider bone densitometry if other concerns)."%string <->
   995 / 100 <= prob_like (score p) * 100 < 1995 / 100) /\
  (interpretation p =
     "Moderate (consider referral for further assessment / DXA)."%string <->
   1995 / 100 <= prob_like (score p) * 100 < 3495 / 100) /\
  (interpretation p =
     "High (refer for DXA and specialist assessment)."%string <->
   3495 / 100 <= prob_like (score p) * 100).
Proof. exact (label_of_prob (score p)). Qed.

(** ** The range of the predictor on the form's domains *)

Lemma flag_bounds (w : R) (b : bool) :
  0 <= w -> 0 <= (if b then w else 0) <= w.
Proof. destruct b; lra. Qed.

Lemma exact_quotient_bounds (p : PatientInput) :
  in_domain p ->
  3000 / 484 <= weight p / (height_cm p / 100) ^ 2 <= 20000 / 144.
Proof.
  intros (_ & [W1 W2] & [H1 H2] & _).
  set (h := height_cm p / 100).
  assert (Hh : 12 / 10 <= h <= 22 / 10) by (unfold h; lra).
  assert (Hq : 144 / 100 <= h ^ 2 <= 484 / 100).
  { replace (144 / 100) with ((12 / 10) ^ 2) by lra.
    replace (484 / 100) with ((22 / 10) ^ 2) by lra.
    split; apply pow_incr; lra. }
  assert (Hp : 0 < h ^ 2) by lra.
  assert (Hi : 100 / 484 <= / h ^ 2 <= 100 / 144).
  { replace (100 / 484) with (/ (484 / 100)) by lra.
    replace (100 / 144) with (/ (144 / 100)) by lra.
    split; apply Rinv_le_contravar; lra. }
  unfold Rdiv at 2. split.
  - apply Rle_trans with (30 * / h ^ 2).
    + lra.
    + apply Rmult_le_compat_r; lra.
  - apply Rle_trans with (200 * / h ^ 2).
    + apply Rmult_le_compat_r; lra.
    + lra.
Qed.

Lemma bmi_bounds (p : PatientInput) :
  in_domain p -> 62 / 10 <= bmi p <= 1389 / 10.
Proof.
  intros H. pose proof (exact_quotient_bounds p H) as [L U].
  destruct H as (_ & [W1 W2] & [H1 H2] & _).
  pose proof (unrounded_bmi_enclosed p ltac:(lra) ltac:(lra)) as [El Eu].
  unfold bmi, round. fold (unrounded_bmi p).
  set (u := unrounded_bmi p) in *.
  set (ex := weight p / (height_cm p / 100) ^ 2) in *.
  assert (Z1 : (62 <= rint (u * 10 ^ 1))%Z).
  { rewrite <- (rint_unique (619 / 100 * 10) 62) by lra.
    apply rint_mono. lra. }
  assert (Z2 : (rint (u * 10 ^ 1) <= 1389)%Z).
  { rewrite <- (rint_unique (13889 / 100 * 10) 1389) by lra.
    apply rint_mono. lra. }
  apply IZR_le in Z1, Z2. lra.
Qed.

(** X4.  On the domains the form declares, the body mass index lies
    between 6.2 and 138.9 and the linear predictor between -14.045 and
    10.29, so the exponential of line 116 is taken of a number between
    -10.29 and 14.045. *)
Theorem predictor_range (p : PatientInput) :
  in_domain p ->
  62 / 10 <= bmi p <= 1389 / 10 /\
  - (14045 / 1000) <= score p <= 1029 / 100.
Proof.
  intros H. pose proof (bmi_bounds p H) as B. split; [exact B |].
  destruct H as ([A1 A2] & _ & _ & D).
  apply IZR_le in A1, A2.
  unfold score. rewrite score_with_sum, score_before_bmd_sum.
  assert (F1 := flag_bounds (12 / 10) (prior_fracture p) ltac:(lra)).
  assert (F2 := flag_bounds (7 / 10) (parent_hip p) ltac:(lra)).
  assert (F3 := flag_bounds (6 / 10) (current_smoker p) ltac:(lra)).
  assert (F4 := flag_bounds (9 / 10) (glucocorticoids p) ltac:(lra)).
  assert (F5 := flag_bounds (8 / 10) (rheumatoid p) ltac:(lra)).
  assert (F6 := flag_bounds (9 / 10) (secondary_osteoporosis p) ltac:(lra)).
  assert (F7 := flag_bounds (5 / 10) (alcohol_3_more p) ltac:(lra)).
  assert (F8 := flag_bounds (8 / 10) (fall_in_last_year p) ltac:(lra)).
  assert (F9 := flag_bounds 1 (immobility p) ltac:(lra)).
  assert (S : - (1 / 10) <=
              (if sex_eqb (sex p) Male then - (10 / 100) else 0) <= 0)
    by (destruct (sex_eqb (sex p) Male); lra).
  weights.
  destruct (Rlt_dec 0 (femoral_neck_bmd p)); destruct D as [D | D]; lra.
Qed.

(** X4 on the crafted submission of C3, which is inside the domains. *)
Lemma predictor_range_witness :
  62 / 10 <= bmi crafted <= 1389 / 10 /\
  - (14045 / 1000) <= score crafted <= 1029 / 100.
Proof. apply (predictor_range crafted). exact crafted_in_domain. Defined.

(** ** The BMD box against an empty box *)

Lemma score_without_bmd (p : PatientInput) :
  score (with_bmd 0 p) = score_before_bmd (bmi p) p.
Proof.
  unfold score. rewrite score_with_sum. simpl femoral_neck_bmd.
  destruct (Rlt_dec 0 0); [lra |].
  rewrite !score_before_bmd_sum. unfold bmi. simpl. ring.
Qed.

(** X5.  Against the same submission with the BMD box left at 0.0: a BMD
    of exactly 0.7 gives the same linear predictor, a BMD between 0 and 0.7
    a higher one, a BMD above 0.7 a lower one; and a BMD just above 0 adds
    almost 1.75, so the predictor jumps where the box leaves 0.0. *)
Theorem bmd_against_empty_box (p : PatientInput) :
  score (with_bmd (7 / 10) p) = score (with_bmd 0 p) /\
  (forall x : R, 0 < x < 7 / 10 ->
     score (with_bmd 0 p) < score (with_bmd x p) < score (with_bmd 0 p) + 175 / 100) /\
  (forall x : R, 7 / 10 < x -> score (with_bmd x p) < score (with_bmd 0 p)) /\
  (forall x : R, 0 < x ->
     score (with_bmd x p) = score (with_bmd 0 p) + 175 / 100 - 25 / 10 * x).
Proof.
  rewrite score_without_bmd.
  split; [| split; [| split]].
  - rewrite score_with_bmd by lra. unfold BMD_WEIGHT. lra.
  - intros x Hx. rewrite score_with_bmd by lra. unfold BMD_WEIGHT. lra.
  - intros x Hx. rewrite score_with_bmd by lra. unfold BMD_WEIGHT. lra.
  - intros x Hx. rewrite score_with_bmd by lra. unfold BMD_WEIGHT. lra.
Qed.

(** X5 on example 1, with a BMD of 0.5 and of 1.0. *)
Lemma bmd_against_empty_box_witness :
  score (with_bmd 0 example_1) < score (with_bmd (5 / 10) example_1) /\
  score (with_bmd 1 example_1) < score (with_bmd 0 example_1).
Proof.
  split.
  - apply (bmd_against_empty_box example_1). lra.
  - apply (bmd_against_empty_box example_1). lra.
Defined.

(** ** The labels as bands of the linear predictor *)

Lemma prob_like_mono (s t : R) : s <= t -> prob_like s <= prob_like t.
Proof.
  intros [H | ->]; [| lra]. left. now apply prob_like_increasing.
Qed.

Lemma prob_lt (s e c : R) :
  0 < e -> 0 < c -> e < exp (- s) -> 100 <= c * (1 + e) ->
  prob_like s * 100 < c.
Proof.
  intros He Hc Hx Hce. unfold prob_like.
  set (x := exp (- s)) in *.
  apply Rmult_lt_reg_r with (1 + x); [lra |].
  replace (1 / (1 + x) * 100 * (1 + x)) with 100 by (field; lra).
  apply Rle_lt_trans with (c * (1 + e)); [exact Hce |].
  apply Rmult_lt_compat_l; lra.
Qed.

Lemma prob_ge (s e c : R) :
  0 < c -> exp (- s) < e -> c * (1 + e) <= 100 ->
  c <= prob_like s * 100.
Proof.
  intros Hc Hx Hce. unfold prob_like.
  pose proof (exp_pos (- s)) as Hp. set (x := exp (- s)) in *.
  apply Rmult_le_reg_r with (1 + x); [lra |].
  replace (1 / (1 + x) * 100 * (1 + x)) with 100 by (field; lra).
  apply Rle_trans with (c * (1 + e)); [| exact Hce].
  apply Rmult_le_compat_l; lra.
Qed.

(** The unrounded index at the six scores that bracket the band limits. *)
Lemma prob_at_cut_points :
  prob_like (- (221 / 100)) * 100 < 995 / 100 /\
  995 / 100 <= prob_like (- (220 / 100)) * 100 /\
  prob_like (- (139 / 100)) * 100 < 1995 / 100 /\
  1995 / 100 <= prob_like (- (138 / 100)) * 100 /\
  prob_like (- (63 / 100)) * 100 < 3495 / 100 /\
  3495 / 100 <= prob_like (- (62 / 100)) * 100.
Proof.
  repeat split.
  - apply (prob_lt _ (1801 / 199)); try lra. rewrite Ropp_involutive.
    apply (exp_above 16 _ (10 ^ 18) 1000033721923828125);
      [lia | lia | lia | simpl; lra | reflexivity].
  - apply (prob_ge _ (1801 / 199)); try lra. rewrite Ropp_involutive.
    apply (exp_below 16 _ (10 ^ 18) 999966430664062500);
      [lia | lia | lia | simpl; lra | reflexivity].
  - apply (prob_lt _ (1601 / 399)); try lra. rewrite Ropp_involutive.
    apply (exp_above 16 _ (10 ^ 18) 1000021209716796875);
      [lia | lia | lia | simpl; lra | reflexivity].
  - apply (prob_ge _ (1601 / 399)); try lra. rewrite Ropp_involutive.
    apply (exp_below 16 _ (10 ^ 18) 999978942871093750);
      [lia | lia | lia | simpl; lra | reflexivity].
  - apply (prob_lt _ (1301 / 699)); try lra. rewrite Ropp_involutive.
    apply (exp_above 16 _ (10 ^ 18) 1000009613037109375);
      [lia | lia | lia | simpl; lra | reflexivity].
  - apply (prob_ge _ (1301 / 699)); try lra. rewrite Ropp_involutive.
    apply (exp_below 16 _ (10 ^ 18) 999990539550781250);
      [lia | lia | lia | simpl; lra | reflexivity].
Qed.

(** X7.  The labels as bands of the linear predictor, to two decimals: a
    predictor up to -2.21 is "Low", from -2.20 to -1.39 "Mild", from -1.38
    to -0.63 "Moderate", and from -0.62 on "High". *)
Theorem predictor_cut_points (p : PatientInput) :
  (score p <= - (221 / 100) ->
   interpretation p = "Low (screening only)."%string) /\
  (- (220 / 100) <= score p <= - (139 / 100) ->
   interpretation p =
     "Mild (consider bone densitometry if other concerns)."%string) /\
  (- (138 / 100) <= score p <= - (63 / 100) ->
   interpretation p =
     "Moderate (consider referral for further assessment / DXA)."%string) /\
  (- (62 / 100) <= score p ->
   interpretation p =
     "High (refer for DXA and specialist assessment)."%string).
Proof.
  unfold interpretation, screening_index.
  destruct (label_of_prob (score p)) as (L1 & L2 & L3 & L4).
  destruct prob_at_cut_points as (C1 & C2 & C3 & C4 & C5 & C6).
  repeat split; intros H.
  - apply L1. pose proof (prob_like_mono (score p) (- (221 / 100))). lra.
  - apply L2.
    pose proof (prob_like_mono (- (220 / 100)) (score p)).
    pose proof (prob_like_mono (score p) (- (139 / 100))). lra.
  - apply L3.
    pose proof (prob_like_mono (- (138 / 100)) (score p)).
    pose proof (prob_like_mono (score p) (- (63 / 100))). lra.
  - apply L4. pose proof (prob_like_mono (- (62 / 100)) (score p)). lra.
Qed.

Lemma score_crafted : score crafted = 0.
Proof. destruct bmi_crafted as [E _]. unfold crafted in *. predictor E. Qed.

(** X7 on four runs: predictors -3.115, -1.915, -1.215 and 0. *)
Lemma predictor_cut_points_witness :
  interpretation example_1 = "Low (screening only)."%string /\
  interpretation example_2 =
    "Moderate (consider referral for further assessment / DXA)."%string /\
  interpretation crafted =
    "High (refer for DXA and specialist assessment)."%string.
Proof.
  split; [| split].
  - apply (predictor_cut_points example_1). rewrite score_example_1. lra.
  - apply (predictor_cut_points example_2). rewrite score_example_2. lra.
  - apply (predictor_cut_points crafted). rewrite score_crafted. lra.
Defined.

(** ** Where the index saturates *)

Lemma exp_neg_lt (x c : R) : 0 < c -> c < exp x -> exp (- x) < / c.
Proof.
  intros Hc H. rewrite exp_Ropp. apply Rinv_lt_contravar; [| exact H].
  apply Rmult_lt_0_compat; [exact Hc | apply exp_pos].
Qed.

Lemma exp_neg_gt (x c : R) : exp x < c -> / c < exp (- x).
Proof.
  intros H. pose proof (exp_pos x) as Hp.
  rewrite exp_Ropp. apply Rinv_lt_contravar; [| exact H].
  apply Rmult_lt_0_compat; lra.
Qed.

Lemma exp_761 : 2010 / 1 < exp (761 / 100).
Proof.
  apply (exp_above 16 _ (10 ^ 18) 1000116119384765625);
    [lia | lia | lia | simpl; lra | reflexivity].
Qed.

Lemma exp_760 : exp (760 / 100) < 19985 / 10.
Proof.
  apply (exp_below 20 _ (10 ^ 18) 999992752075195312);
    [lia | lia | lia | simpl; lra | reflexivity].
Qed.

(** The unrounded index at plus and minus 7.61 and 7.60. *)
Lemma prob_at_saturation :
  9995 / 100 < prob_like (761 / 100) * 100 /\
  prob_like (760 / 100) * 100 < 9995 / 100 /\
  prob_like (- (761 / 100)) * 100 < 5 / 100 /\
  5 / 100 < prob_like (- (760 / 100)) * 100.
Proof.
  pose proof exp_761 as A. pose proof exp_760 as B.
  pose proof (exp_neg_lt (761 / 100) (2010 / 1) ltac:(lra) A) as A'.
  pose proof (exp_neg_gt (760 / 100) (19985 / 10) B) as B'.
  repeat split.
  - apply Rlt_le_trans with (999502 / 10000); [lra |].
    apply (prob_ge _ (/ (2010 / 1))); lra.
  - apply (prob_lt _ (/ (19985 / 10))); lra.
  - apply (prob_lt _ (2010 / 1)); try lra. now rewrite Ropp_involutive.
  - apply Rlt_le_trans with (50012 / 1000000); [lra |].
    apply (prob_ge _ (19985 / 10)); try lra. now rewrite Ropp_involutive.
Qed.

Lemma index_of_score_tenths (s : R) :
  index_of_score s = IZR (rint (prob_like s * 100 * 10)) / 10.
Proof. unfold index_of_score, round. simpl pow. f_equal; [f_equal; f_equal |]; ring. Qed.

(** X8.  The index reads exactly 100.0 from a linear predictor of 7.61 on
    and stays below it up to 7.60; it reads exactly 0.0 up to a predictor of
    -7.61 and is above it from -7.60 on. *)
Theorem index_saturates (p : PatientInput) :
  (761 / 100 <= score p -> screening_index p = 100) /\
  (score p <= 760 / 100 -> screening_index p <= 999 / 10) /\
  (score p <= - (761 / 100) -> screening_index p = 0) /\
  (- (760 / 100) <= score p -> 1 / 10 <= screening_index p).
Proof.
  destruct prob_at_saturation as (A & B & C & D).
  pose proof (prob_like_unit (score p)) as [U0 U1].
  unfold screening_index. rewrite index_of_score_tenths.
  set (P := prob_like (score p)) in *.
  repeat split; intros H.
  - pose proof (prob_like_mono (761 / 100) (score p) H). fold P in H0.
    rewrite (rint_unique (P * 100 * 10) 1000); lra.
  - pose proof (prob_like_mono (score p) (760 / 100) H). fold P in H0.
    pose proof (rint_near (P * 100 * 10)) as [N _].
    assert (Hz : (rint (P * 100 * 10) < 1000)%Z) by (apply lt_IZR; lra).
    assert (Hz' : (rint (P * 100 * 10) <= 999)%Z) by lia.
    apply IZR_le in Hz'. lra.
  - pose proof (prob_like_mono (score p) (- (761 / 100)) H). fold P in H0.
    rewrite (rint_unique (P * 100 * 10) 0); lra.
  - pose proof (prob_like_mono (- (760 / 100)) (score p) H). fold P in H0.
    pose proof (rint_near (P * 100 * 10)) as [_ N].
    assert (Hz : (0 < rint (P * 100 * 10))%Z) by (apply lt_IZR; lra).
    assert (Hz' : (1 <= rint (P * 100 * 10))%Z) by lia.
    apply IZR_le in Hz'. lra.
Qed.

Lemma corners :
  in_domain lowest /\ score lowest = - (14045 / 1000) /\
  in_domain highest /\ score highest = 1029 / 100.
Proof.
  assert (B1 : bmi lowest = 1389 / 10).
  { apply (bmi_of_exact _ 1389); simpl; lra. }
  assert (B2 : bmi highest = 62 / 10).
  { apply (bmi_of_exact _ 62); simpl; lra. }
  repeat split; try (simpl; lia); try (simpl; lra).
  - unfold lowest in *. predictor B1.
  - unfold highest in *. predictor B2.
Qed.

(** X8 at the two corners of the domains: the index reaches 0.0 and 100.0
    on submissions the form accepts. *)
Lemma index_saturates_witness :
  screening_index highest = 100 /\ screening_index lowest = 0.
Proof.
  destruct corners as (_ & L & _ & H).
  split.
  - apply (index_saturates highest). rewrite H. lra.
  - apply (index_saturates lowest). rewrite L. lra.
Defined.

(** ** Weight and height *)

Lemma score_of_bmi (p : PatientInput) :
  score p = score_with 25 p + BMI_WEIGHT * (bmi p - 25).
Proof.
  unfold score. rewrite !score_with_sum, !score_before_bmd_sum. ring.
Qed.

(** X9.  More weight never raises the linear predictor and more height
    never lowers it, all other inputs fixed: both act through the rounded
    body mass index only, so a small change can leave the predictor as it
    is. *)
Theorem weight_and_height (p : PatientInput) :
  (forall w1 w2 : R, 0 < height_cm p -> w1 <= w2 ->
     score (with_weight w2 p) <= score (with_weight w1 p)) /\
  (forall h1 h2 : R, 0 <= weight p -> 0 < h1 <= h2 ->
     score (with_height h1 p) <= score (with_height h2 p)) /\
  (forall w1 w2 : R,
     bmi (with_weight w1 p) = bmi (with_weight w2 p) ->
     score (with_weight w1 p) = score (with_weight w2 p)).
Proof.
  assert (D : forall h : R, 0 < h -> 0 < float_pow (truediv h 100) 2).
  { intros h Hh. unfold float_pow, truediv.
    apply b64_pos_lt, pow_lt, b64_pos_lt. lra. }
  split; [| split].
  - intros w1 w2 Hh Hw. rewrite (score_of_bmi (with_weight w1 p)),
      (score_of_bmi (with_weight w2 p)).
    replace (score_with 25 (with_weight w2 p))
      with (score_with 25 (with_weight w1 p))
      by (rewrite !score_with_sum, !score_before_bmd_sum; reflexivity).
    assert (M : bmi (with_weight w1 p) <= bmi (with_weight w2 p)).
    { unfold bmi. simpl weight. simpl height_cm. apply round1_mono.
      unfold truediv at 1 3. apply b64_mono.
      apply Rmult_le_compat_r; [| exact Hw].
      left. apply Rinv_0_lt_compat, D, Hh. }
    unfold BMI_WEIGHT. lra.
  - intros h1 h2 Hw [H1 H12]. rewrite (score_of_bmi (with_height h1 p)),
      (score_of_bmi (with_height h2 p)).
    replace (score_with 25 (with_height h2 p))
      with (score_with 25 (with_height h1 p))
      by (rewrite !score_with_sum, !score_before_bmd_sum; reflexivity).
    assert (M : bmi (with_height h2 p) <= bmi (with_height h1 p)).
    { unfold bmi. simpl weight. simpl height_cm. apply round1_mono.
      unfold truediv at 1 3. apply b64_mono.
      apply Rmult_le_compat_l; [exact Hw |].
      apply Rinv_le_contravar; [apply D, H1 |].
      unfold float_pow, truediv. apply b64_mono, pow_incr. split.
      - left. apply b64_pos_lt. lra.
      - apply b64_mono. lra. }
    unfold BMI_WEIGHT. lra.
  - intros w1 w2 E. rewrite (score_of_bmi (with_weight w1 p)),
      (score_of_bmi (with_weight w2 p)), E.
    reflexivity.
Qed.

(** X9 on example 1: at 71 kg the predictor is not higher than at 70 kg,
    and at 70.01 kg it is the same. *)
Lemma weight_and_height_witness :
  score (with_weight 71 example_1) <= score (with_weight 70 example_1) /\
  score (with_weight 70 example_1) = score (with_weight (7001 / 100) example_1).
Proof.
  split.
  - apply (weight_and_height example_1); simpl; lra.
  - apply (weight_and_height example_1).
    rewrite (bmi_of_exact _ 273), (bmi_of_exact _ 273); simpl; lra.
Defined.
